(** * Word Seek: the guess-scoring engine, the session store, the
    leaderboard query and the broadcast fan-out of [main.py], embedded in
    Rocq and checked against the properties of the specification. *)

From stdpp Require Import gmap strings list sorting.
From Stdlib Require Import ZArith Lia Ascii.

Open Scope Z_scope.

(** ** Text *)

(** A Python [str] is a sequence of characters, each a Unicode code point:
    [len] is the number of characters and [list] enumerates them. The text of
    a message and the words of the game are kept character by character. *)
Abbreviation char := N.
Abbreviation str := (list N).

(** The text of a 7-bit literal. *)
Definition lit (s : string) : str :=
  Ascii.N_of_ascii <$> String.list_ascii_of_string s.

(** ** Python loops and list primitives *)

(** [for i in idx: s = body(s, i)], where the body may raise. *)
Fixpoint for_each {S : Type} (body : S → nat → option S) (idx : list nat) (s : S)
  : option S :=
  match idx with
  | [] => Some s
  | i :: rest => s' ← body s i; for_each body rest s'
  end.

(** [l.index(x)]: the leftmost position holding a value equal to [x]. *)
Fixpoint list_index {X : Type} `{EqDecision X} (x : X) (l : list X) : option nat :=
  match l with
  | [] => None
  | y :: l' => if decide (y = x) then Some 0%nat else S <$> list_index x l'
  end.

(** Number of elements of [l] satisfying [P]. *)
Fixpoint count_where {X : Type} (P : X → bool) (l : list X) : nat :=
  match l with
  | [] => 0%nat
  | x :: l' => ((if P x then 1 else 0) + count_where P l')%nat
  end.

(** Number of positions at which the two lists are related by [P]. *)
Fixpoint count_pairs {X Y : Type} (P : X → Y → bool) (l1 : list X) (l2 : list Y) : nat :=
  match l1, l2 with
  | x :: l1', y :: l2' => ((if P x y then 1 else 0) + count_pairs P l1' l2')%nat
  | _, _ => 0%nat
  end.

(** A truth value as a count. *)
Definition bit (b : bool) : nat := if b then 1%nat else 0%nat.

(** ** Scoring engine: [format_guess_result] *)

Module Scoring.

(** The three markers of the result string. *)
Inductive emoji := Green | Yellow | Red.

#[global] Instance emoji_eq_dec : EqDecision emoji.
Proof. solve_decision. Defined.

Section engine.
Context {A : Type} `{EqDecision A}.

(** The three working lists of the function. A consumed character is
    Python's [None]; a cell of [result_emoji] not yet decided is the empty
    string, here [None]. *)
Record board := Board {
  target_list : list (option A);
  guess_list : list (option A);
  result_emoji : list (option emoji)
}.

Definition initial_board (target guess : list A) : board :=
  {| target_list := Some <$> target;
     guess_list := Some <$> guess;
     result_emoji := replicate 5 None |}.

(** Body of the first loop (correct position). *)
Definition green_step (b : board) (i : nat) : option board :=
  g ← guess_list b !! i;
  t ← target_list b !! i;
  if decide (g = t)
  then Some {| result_emoji := <[i := Some Green]> (result_emoji b);
               target_list := <[i := None]> (target_list b);
               guess_list := <[i := None]> (guess_list b) |}
  else Some b.

(** Body of the second loop (present elsewhere, or absent). *)
Definition yellow_step (b : board) (i : nat) : option board :=
  r ← result_emoji b !! i;
  match r with
  | None =>
      g ← guess_list b !! i;
      if decide (g ≠ None ∧ g ∈ target_list b)
      then
        j ← list_index g (target_list b);
        Some {| result_emoji := <[i := Some Yellow]> (result_emoji b);
                target_list := <[j := None]> (target_list b);
                guess_list := guess_list b |}
      else
        Some {| result_emoji := <[i := Some Red]> (result_emoji b);
                target_list := target_list b;
                guess_list := guess_list b |}
  | Some _ => Some b
  end.

(** ["".join(result_emoji)]: undecided cells contribute nothing. *)
Definition join (cells : list (option emoji)) : list emoji := omap id cells.

(** [None] stands for the [IndexError] raised on a string shorter than 5. *)
Definition format_guess_result (target guess : list A) : option (list emoji) :=
  b1 ← for_each green_step (seq 0 5) (initial_board target guess);
  b2 ← for_each yellow_step (seq 0 5) b1;
  Some (join (result_emoji b2)).

(** Counting functions used to state the multiset property. *)
Definition occurrences (c : A) (target : list A) : nat :=
  count_where (λ t, bool_decide (t = c)) target.

Definition exact_matches (c : A) (target guess : list A) : nat :=
  count_pairs (λ t g, bool_decide (t = c ∧ g = t)) target guess.

Definition present_elsewhere (c : A) (guess : list A) (pattern : list emoji) : nat :=
  count_pairs (λ g m, bool_decide (g = c ∧ m = Yellow)) guess pattern.

(** *** Loop invariants of the two passes *)

(** The board the first loop leaves on two strings of equal length. *)
Definition green_board (target guess : list A) : board :=
  {| target_list := zip_with (λ t g, if decide (g = t) then None else Some t) target guess;
     guess_list := zip_with (λ t g, if decide (g = t) then None else Some g) target guess;
     result_emoji :=
       zip_with (λ t g, if decide (g = t) then Some Green else None) target guess |}.

(** Occurrences of [c] not yet consumed in a working target list. *)
Definition unconsumed (c : A) (l : list (option A)) : nat :=
  count_where (λ o, bool_decide (o = Some c)) l.

(** Cells marked present-elsewhere whose guess letter is [c]. *)
Definition yellow_cells (c : A) (guess : list A) (cells : list (option emoji)) : nat :=
  count_pairs (λ g r, bool_decide (g = c ∧ r = Some Yellow)) guess cells.

(** What holds of the board before iteration [k] of the second loop. *)
Record yellow_inv (target guess : list A) (k : nat) (b : board) : Prop := {
  inv_guess : guess_list b = guess_list (green_board target guess);
  inv_target_len : length (target_list b) = 5%nat;
  inv_result_len : length (result_emoji b) = 5%nat;
  inv_pending : ∀ i, (k ≤ i)%nat →
    result_emoji b !! i = result_emoji (green_board target guess) !! i;
  inv_decided : ∀ i, (i < k)%nat → ∃ m, result_emoji b !! i = Some (Some m);
  inv_green : ∀ i, result_emoji b !! i = Some (Some Green) ↔
    result_emoji (green_board target guess) !! i = Some (Some Green);
  inv_budget : ∀ c,
    (yellow_cells c guess (result_emoji b) + unconsumed c (target_list b))%nat
    = unconsumed c (target_list (green_board target guess))
}.

End engine.

End Scoring.

(** ** Text primitives of the host language *)

(** [str.strip], [str.upper] and [str.isalpha] are Python built-ins whose
    behaviour on arbitrary Unicode text is not part of the program; the
    handlers are written against this interface. *)
Class PyStr := {
  str_strip : str → str;
  str_upper : str → str;
  str_isalpha : str → bool
}.

(** The built-ins on text whose characters are below 256 (Latin-1), used to
    run the handlers on examples. A character from 256 on is taken as it
    comes: not white space, not alphabetic, its own upper case. *)
Module Latin1Text.

(** [str.isspace] on one character. *)
Definition is_space (c : char) : bool :=
  ((9 <=? c) && (c <=? 13) || (28 <=? c) && (c <=? 32)
   || (c =? 133) || (c =? 160))%N.

(** [str.isalpha] on one character: the letters of Latin-1. *)
Definition is_alpha (c : char) : bool :=
  ((65 <=? c) && (c <=? 90) || (97 <=? c) && (c <=? 122)
   || (c =? 170) || (c =? 181) || (c =? 186)
   || (192 <=? c) && (c <=? 214) || (216 <=? c) && (c <=? 246)
   || (248 <=? c) && (c <=? 255))%N.

(** [str.upper] on one character; the sharp s becomes two letters. *)
Definition upper_char (c : char) : str :=
  (if (97 <=? c) && (c <=? 122) then [c - 32]
   else if c =? 181 then [924]
   else if c =? 223 then [83; 83]
   else if (224 <=? c) && (c <=? 246) || (248 <=? c) && (c <=? 254) then [c - 32]
   else if c =? 255 then [376]
   else [c])%N.

Fixpoint lstrip (l : str) : str :=
  match l with
  | c :: l' => if is_space c then lstrip l' else l
  | [] => []
  end.

Definition strip (s : str) : str :=
  reverse (lstrip (reverse (lstrip s))).

Definition upper (s : str) : str := s ≫= upper_char.

Definition isalpha (s : str) : bool :=
  match s with
  | [] => false
  | _ => forallb is_alpha s
  end.

Definition ops : PyStr :=
  {| str_strip := strip; str_upper := upper; str_isalpha := isalpha |}.

End Latin1Text.

(** ** Persistent store: the [scores] and [chats] tables *)

Module Store.

(** A row of [scores]; [recorded_at] is in seconds. *)
Record score_row := ScoreRow {
  user_id : Z;
  user_name : string;
  points : Z;
  chat_id : Z;
  recorded_at : Z
}.

(** A row of [chats]. *)
Record chat_row := ChatRow {
  c_chat_id : Z;
  chat_title : string;
  added_at : Z
}.

(** What the next database call meets: a working server, a failing
    [psycopg2.connect] (or an unset [DATABASE_URL]), or a connection on
    which the statement raises. *)
Inductive db_outcome := DbOk | DbNoConnection | DbQueryError.

#[global] Instance db_outcome_eq_dec : EqDecision db_outcome.
Proof. solve_decision. Defined.

(** The server: both tables, its clock, the outcomes the coming calls will
    meet (an exhausted script means a working server), and its choice, left
    open by [ORDER BY], of which of two groups of equal total comes first. *)
Record database := Database {
  scores : list score_row;
  chats : list chat_row;
  now : Z;
  db_script : list db_outcome;
  lists_first : Z * string → Z * string → bool
}.

(** A connection; [usable = false] when statements on it raise. *)
Record connection := Connection { usable : bool }.

(** The server once one more call has met its outcome. *)
Definition after_call (d : database) : database :=
  {| scores := scores d; chats := chats d; now := now d;
     db_script := tail (db_script d); lists_first := lists_first d |}.

(** Whether the [n]-th coming call (from 0) meets a working server. *)
Definition call_succeeds (n : nat) (d : database) : bool :=
  match db_script d !! n with
  | Some DbNoConnection | Some DbQueryError => false
  | Some DbOk | None => true
  end.

Definition db_connect (d : database) : option connection * database :=
  (match head (db_script d) with
   | Some DbNoConnection => None
   | Some DbQueryError => Some (Connection false)
   | Some DbOk | None => Some (Connection true)
   end, after_call d).

Definition db_add_score (uid : Z) (name : string) (pts : Z) (chat : Z)
    (d : database) : database :=
  match db_connect d with
  | (None, d') => d'
  | (Some conn, d') =>
      if usable conn
      then {| scores := scores d' ++ [ScoreRow uid name pts chat (now d')];
              chats := chats d'; now := now d'; db_script := db_script d';
              lists_first := lists_first d' |}
      else d'
  end.

Definition db_add_chat_id (chat : Z) (title : string) (d : database) : database :=
  match db_connect d with
  | (None, d') => d'
  | (Some conn, d') =>
      if usable conn
      then
        if decide (chat ∈ c_chat_id <$> chats d') then d'
        else {| scores := scores d';
                chats := chats d' ++ [ChatRow chat title (now d')];
                now := now d'; db_script := db_script d';
                lists_first := lists_first d' |}
      else d'
  end.

(** [CURRENT_DATE]: the start of the server's current day. *)
Definition seconds_per_day : Z := 86400.
Definition current_date (d : database) : Z := now d - now d `mod` seconds_per_day.

Definition time_condition (time_filter : string) (d : database) (r : score_row) : bool :=
  if decide (time_filter = "today") then current_date d <=? recorded_at r
  else if decide (time_filter = "week")
       then current_date d - 7 * seconds_per_day <=? recorded_at r
       else true.

Definition scope_condition (scope : string) (chat : Z) (r : score_row) : bool :=
  if decide (scope = "local") then bool_decide (chat_id r = chat) else true.

(** [GROUP BY user_id, user_name] with [SUM(points)], groups in order of
    first appearance. *)
Fixpoint add_to_group (uid : Z) (name : string) (pts : Z)
    (groups : list (Z * string * Z)) : list (Z * string * Z) :=
  match groups with
  | [] => [(uid, name, pts)]
  | (u, n, t) :: rest =>
      if decide (u = uid ∧ n = name) then (u, n, t + pts) :: rest
      else (u, n, t) :: add_to_group uid name pts rest
  end.

Definition group_by_user_id_user_name (rows : list score_row) : list (Z * string * Z) :=
  foldl (λ groups r, add_to_group (user_id r) (user_name r) (points r) groups) [] rows.

(** [ORDER BY total_points DESC]; among groups of equal total the order is
    the server's, given by [first]. *)
Fixpoint insert_desc (first : Z * string → Z * string → bool)
    (x : Z * string * Z) (l : list (Z * string * Z)) : list (Z * string * Z) :=
  match l with
  | [] => [x]
  | y :: l' =>
      if (y.2 <? x.2) || (y.2 =? x.2) && first x.1 y.1
      then x :: y :: l' else y :: insert_desc first x l'
  end.

Definition order_by_total_desc (first : Z * string → Z * string → bool)
    (l : list (Z * string * Z)) : list (Z * string * Z) :=
  foldr (insert_desc first) [] l.

(** The rows the [WHERE] clause keeps. *)
Definition matching_rows (time_filter scope : string) (chat : Z) (d : database)
    : list score_row :=
  filter (λ r, scope_condition scope chat r && time_condition time_filter d r)
         (scores d).

(** The [SELECT] of [db_get_leaderboard]. *)
Definition leaderboard_query (time_filter scope : string) (chat : Z) (d : database)
    : list (Z * string * Z) :=
  take 10 (order_by_total_desc (lists_first d) (group_by_user_id_user_name
    (matching_rows time_filter scope chat d))).

(** Vocabulary for the result of the query: the key of a group, the order
    of the result, and the points recorded for a user under one name. *)
Definition group_key (g : Z * string * Z) : Z * string := g.1.

Definition total_desc (x y : Z * string * Z) : Prop := y.2 ≤ x.2.

Fixpoint points_under (uid : Z) (name : string) (rows : list score_row) : Z :=
  match rows with
  | [] => 0
  | r :: rest =>
      (if decide (user_id r = uid ∧ user_name r = name) then points r else 0)
      + points_under uid name rest
  end.

(** The points recorded for a user under any name. *)
Definition points_of_user (uid : Z) (rows : list score_row) : Z :=
  foldr (λ r total, if decide (user_id r = uid) then points r + total else total) 0 rows.

(** What relates the groups built so far to the rows read so far. *)
Record groups_of (rows : list score_row) (groups : list (Z * string * Z)) : Prop := {
  groups_nodup : NoDup (group_key <$> groups);
  groups_keys : ∀ uid name, (uid, name) ∈ group_key <$> groups ↔
    ∃ r, r ∈ rows ∧ user_id r = uid ∧ user_name r = name;
  groups_totals : ∀ uid name total, (uid, name, total) ∈ groups →
    total = points_under uid name rows
}.

Definition db_get_leaderboard (time_filter scope : string) (chat : Z) (d : database)
    : (list (Z * Z) * gmap Z string) * database :=
  match db_connect d with
  | (None, d') => (([], ∅), d')
  | (Some conn, d') =>
      if usable conn
      then
        let results := leaderboard_query time_filter scope chat d' in
        (foldl (λ '(sorted_scores, user_names) '(uid, name, total),
                  (sorted_scores ++ [(uid, total)], <[uid := name]> user_names))
               ([], ∅) results, d')
      else (([], ∅), d')
  end.

Definition db_get_all_chat_ids (d : database) : list Z * database :=
  match db_connect d with
  | (None, d') => ([], d')
  | (Some conn, d') =>
      if usable conn then (c_chat_id <$> chats d', d') else ([], d')
  end.

End Store.

(** ** The bot: session store and command handlers *)

Module Bot.
Import Scoring Store.

(** A value of [user_games]. *)
Record game := Game {
  word : str;
  attempts : nat;
  active : bool;
  history : list (str * list emoji);
  guessed_words : gset str
}.

(** Process state: the module-level dict and the database behind it. *)
Record world := World {
  user_games : gmap Z game;
  db : database
}.

(** The message a command replies to; [content_type = None] when reading
    the attribute raises [AttributeError]. A [telegram.Message], the class of
    every message the imported library hands to a handler, has no attribute
    of that name, so [None] is the case of every update the bot receives. *)
Record replied_message := RepliedMessage { content_type : option str }.

(** The parts of a Telegram update the handlers read. *)
Record update := Update {
  message_text : option str;
  effective_user_id : Z;
  first_name : string;
  effective_chat_id : Z;
  chat_is_private : bool;
  effective_chat_title : option string;
  reply_to_message : option replied_message
}.

(** What a handler sends back, by the message it formats. *)
Inductive reply :=
| Welcome
| AlreadyActive
| ChallengeInitiated
| GameStopped (target : str)
| NoActiveGame
| LeaderboardPanel (time_frame scope : string) (lines : list (string * Z))
| AccessDenied
| BroadcastUsage
| BroadcastBadType
| BroadcastComplete (kind : str) (success_count total_chats : nat)
| DuplicateGuess (guess : str)
| FormatError
| Progress (board : list (str * list emoji)) (tries : nat) (score : Z)
| Victory (name : string) (tries : nat) (total : Z) (board : list (str * list emoji)).

(** A handler replies, returns without a word, or lets an exception out. *)
Inductive outcome := Replied (r : reply) | Silent | Raised.

Definition fallback_words : list str :=
  lit <$> ["APPLE"; "BRAIN"; "CHAIR"; "DREAM"; "EAGLE"; "GHOST"; "LIGHT"; "MUSIC"].

(** [next((score for uid, score in data if uid == user_id), dflt)] *)
Fixpoint first_score (uid : Z) (data : list (Z * Z)) (dflt : Z) : Z :=
  match data with
  | [] => dflt
  | (u, score) :: rest => if decide (u = uid) then score else first_score uid rest dflt
  end.

Section handlers.
Context `{PyStr}.
(** The owner's user id, read from the environment at start-up. *)
Variable AADII_USER_ID : Z.

(** [api] is the word the remote service answers with ([None] on any
    failure), [pick] the draw of [random.choice]. *)
Definition get_random_5_letter_word (api : option str) (pick : nat) : str :=
  match api with
  | Some w => str_upper w
  | None => str_upper (default (lit "APPLE")
              (fallback_words !! (pick `mod` length fallback_words)%nat))
  end.

Definition get_leaderboard_text (time_frame scope : string) (chat : Z) (d : database)
    : reply * database :=
  let '((sorted_scores, user_names), d') := db_get_leaderboard time_frame scope chat d in
  (LeaderboardPanel time_frame scope
     ((λ '(uid, score), (default "Unknown Player" (user_names !! uid), score))
        <$> sorted_scores), d').

Definition start_command (u : update) (w : world) : world * outcome :=
  let d' :=
    if chat_is_private u then db w
    else db_add_chat_id (effective_chat_id u)
           (match effective_chat_title u with
            | Some t => if decide (t = "") then "Group Chat" else t
            | None => "Group Chat"
            end) (db w) in
  ({| user_games := user_games w; db := d' |}, Replied Welcome).

Definition is_game_active (chat : Z) (w : world) : bool :=
  match user_games w !! chat with
  | Some g => active g
  | None => false
  end.

Definition game_command (api : option str) (pick : nat) (u : update) (w : world)
    : world * outcome :=
  let chat := effective_chat_id u in
  if is_game_active chat w then (w, Replied AlreadyActive)
  else
    let w0 := get_random_5_letter_word api pick in
    ({| user_games :=
          <[chat := {| word := w0; attempts := 0; active := true;
                       history := []; guessed_words := ∅ |}]> (user_games w);
        db := db w |}, Replied ChallengeInitiated).

Definition stop_command (u : update) (w : world) : world * outcome :=
  let chat := effective_chat_id u in
  match user_games w !! chat with
  | Some g =>
      if active g
      then ({| user_games := delete chat (user_games w); db := db w |},
            Replied (GameStopped (word g)))
      else (w, Replied NoActiveGame)
  | None => (w, Replied NoActiveGame)
  end.

Definition leaderboard_command (u : update) (w : world) : world * outcome :=
  let '(panel, d') := get_leaderboard_text "today" "global" (effective_chat_id u) (db w) in
  ({| user_games := user_games w; db := d' |}, Replied panel).

(** [data_parts] is [query.data.split('_')]. *)
Definition leaderboard_callback (data_parts : list string) (u : update) (w : world)
    : world * outcome :=
  match data_parts with
  | [_; time_frame; scope] =>
      let '(panel, d') := get_leaderboard_text time_frame scope (effective_chat_id u) (db w) in
      ({| user_games := user_games w; db := d' |}, Replied panel)
  | _ => (w, Silent)
  end.

(** The fan-out loop: [delivers c] tells whether the send to chat [c]
    goes through. The state is [success_count] and the chats a send was
    attempted to, in order. *)
Definition broadcast_step (delivers : Z → bool) (here : Z)
    (acc : nat * list Z) (chat : Z) : nat * list Z :=
  if decide (chat = here) then acc
  else if delivers chat then (S acc.1, acc.2 ++ [chat])
       else (acc.1, acc.2 ++ [chat]).

Definition broadcast_command (delivers : Z → bool) (u : update) (w : world)
    : world * outcome * list Z :=
  if decide (effective_user_id u ≠ AADII_USER_ID) then (w, Replied AccessDenied, [])
  else
    match reply_to_message u with
    | None => (w, Replied BroadcastUsage, [])
    | Some message_to_broadcast =>
        let '(chat_ids, d') := db_get_all_chat_ids (db w) in
        let w' := {| user_games := user_games w; db := d' |} in
        let total_chats := length chat_ids in
        match content_type message_to_broadcast with
        | None => (w', Replied BroadcastBadType, [])
        | Some kind =>
            let '(success_count, attempted) :=
              foldl (broadcast_step delivers (effective_chat_id u)) (0%nat, []) chat_ids in
            (w', Replied (BroadcastComplete (str_upper kind) success_count total_chats),
             attempted)
        end
    end.

Definition process_message (u : update) (w : world) : world * outcome :=
  match message_text u with
  | None => (w, Silent)
  | Some raw =>
    if decide (raw = []) then (w, Silent)
    else
      let user := effective_user_id u in
      let chat := effective_chat_id u in
      let text := str_upper (str_strip raw) in
      if is_game_active chat w && bool_decide (length text = 5%nat)
         && str_isalpha text
      then
        match user_games w !! chat with
        | None => (w, Raised)
        | Some g =>
            if decide (text ∈ guessed_words g)
            then (w, Replied (DuplicateGuess text))
            else
              let g1 := {| word := word g; attempts := S (attempts g);
                           active := active g; history := history g;
                           guessed_words := guessed_words g ∪ {[text]} |} in
              match format_guess_result (word g1) text with
              | None =>
                  ({| user_games := <[chat := g1]> (user_games w); db := db w |}, Raised)
              | Some result_emoji =>
                  let g2 := {| word := word g1; attempts := attempts g1;
                               active := active g1;
                               history := history g1 ++ [(text, result_emoji)];
                               guessed_words := guessed_words g1 |} in
                  let score_change := if decide (text = word g2) then 5 else 0 in
                  let '((user_scores_data, _), d1) :=
                    db_get_leaderboard "all" "global" chat (db w) in
                  let current_total_score := first_score user user_scores_data 0 in
                  if decide (text = word g2)
                  then
                    let d2 := db_add_score user (first_name u) 5 chat d1 in
                    let '((final_score_data, _), d3) :=
                      db_get_leaderboard "all" "global" chat d2 in
                    let final_total_score := first_score user final_score_data 5 in
                    ({| user_games := delete chat (user_games w); db := d3 |},
                     Replied (Victory (first_name u) (attempts g2) final_total_score
                                (history g2)))
                  else
                    ({| user_games := <[chat := g2]> (user_games w); db := d1 |},
                     Replied (Progress (history g2) (attempts g2)
                                (current_total_score + score_change)))
              end
        end
      else if is_game_active chat w
              && (negb (bool_decide (length text = 5%nat))
                  || negb (str_isalpha text))
      then (w, Replied FormatError)
      else (w, Silent)
  end.

(** *** Runs of the bot *)

(** What can happen to the process: an update reaches a handler, time
    passes on the server, or the fate of coming database calls changes. *)
Inductive event :=
| OnStart (u : update)
| OnGame (api : option str) (pick : nat) (u : update)
| OnStop (u : update)
| OnLeaderboard (u : update)
| OnLeaderboardCallback (data_parts : list string) (u : update)
| OnBroadcast (delivers : Z → bool) (u : update)
| OnMessage (u : update)
| ClockAdvances (t : Z)
| ServerFate (script : list db_outcome).

Definition handle (e : event) (w : world) : world :=
  match e with
  | OnStart u => (start_command u w).1
  | OnGame api pick u => (game_command api pick u w).1
  | OnStop u => (stop_command u w).1
  | OnLeaderboard u => (leaderboard_command u w).1
  | OnLeaderboardCallback parts u => (leaderboard_callback parts u w).1
  | OnBroadcast delivers u => (broadcast_command delivers u w).1.1
  | OnMessage u => (process_message u w).1
  | ClockAdvances t =>
      {| user_games := user_games w;
         db := {| scores := scores (db w); chats := chats (db w);
                  now := now (db w) + Z.max 0 t; db_script := db_script (db w);
                  lists_first := lists_first (db w) |} |}
  | ServerFate script =>
      {| user_games := user_games w;
         db := {| scores := scores (db w); chats := chats (db w);
                  now := now (db w); db_script := script;
                  lists_first := lists_first (db w) |} |}
  end.

(** The process starts with an empty [user_games] over whatever the
    database holds. *)
Inductive reachable : world → Prop :=
| reachable_boot d : reachable {| user_games := ∅; db := d |}
| reachable_step e w : reachable w → reachable (handle e w).

(** *** Vocabulary of the properties *)

(** The update carries the non-empty text [raw]. *)
Definition submits (u : update) (raw : str) : Prop :=
  message_text u = Some raw ∧ raw ≠ [].

(** The text the handler works on. *)
Definition normalise (raw : str) : str := str_upper (str_strip raw).

(** Exactly 5 alphabetic characters. *)
Definition valid_guess (text : str) : Prop :=
  length text = 5%nat ∧ str_isalpha text = true.

(** What every stored session satisfies in a run of the bot. *)
Record session_ok (g : game) : Prop := {
  ok_active : active g = true;
  ok_unsolved : word g ∉ guessed_words g;
  ok_guesses : ∀ x, x ∈ guessed_words g → valid_guess x
}.

Definition sessions_ok (w : world) : Prop :=
  ∀ chat g, user_games w !! chat = Some g → session_ok g.

End handlers.

End Bot.

(** ** Concrete runs used to exercise the handlers *)

Module Scenario.
Import Scoring Store Bot.
#[local] Existing Instance Latin1Text.ops.

Definition owner : Z := 42.

(** A text message [text] from user [user] in the group chat [chat]. *)
Definition says_text (chat user : Z) (text : str) : update :=
  {| message_text := Some text; effective_user_id := user; first_name := "Ada";
     effective_chat_id := chat; chat_is_private := false;
     effective_chat_title := Some "Word club"; reply_to_message := None |}.

Definition says (chat user : Z) (text : string) : update :=
  says_text chat user (lit text).

Definition fresh_db : database :=
  {| scores := []; chats := []; now := 1000; db_script := [];
     lists_first := λ _ _, true |}.

Definition booted : world := {| user_games := ∅; db := fresh_db |}.

(** Chat 1 plays a game whose target is APPLE. *)
Definition apple_game : world :=
  handle owner (OnGame (Some (lit "apple")) 0 (says 1 7 "/game")) booted.

(** ... and BRAIN has been tried in it. *)
Definition apple_game_after_brain : world :=
  handle owner (OnMessage (says 1 7 "brain")) apple_game.

(** The same game when the second database call to come finds no server. *)
Definition apple_game_server_down : world :=
  handle owner (ServerFate [DbOk; DbNoConnection]) apple_game.

(** Five registered chats. *)
Definition five_chats : world :=
  {| user_games := ∅;
     db := {| scores := [];
              chats := [ChatRow 1 "one" 0; ChatRow 2 "two" 0; ChatRow 3 "three" 0;
                        ChatRow 4 "four" 0; ChatRow 5 "five" 0];
              now := 1000; db_script := []; lists_first := λ _ _, true |} |}.

(** The owner replies [/broadcast] to a message in chat [chat]; the replied
    message is a [telegram.Message], on which reading [content_type] raises. *)
Definition broadcast_from (chat : Z) : update :=
  {| message_text := Some (lit "/broadcast"); effective_user_id := owner;
     first_name := "Aadii"; effective_chat_id := chat; chat_is_private := false;
     effective_chat_title := Some "Word club";
     reply_to_message := Some {| content_type := None |} |}.

Definition ecole : str := [233; 99; 111; 108; 101]%N.

(** The chat ids in the registry of a world. *)
Definition registered_ids_of (w : world) : list Z := c_chat_id <$> chats (db w).

(** Every send goes through but the one to chat 2. *)
Definition all_but_chat_2 (chat : Z) : bool := negb (chat =? 2).

(** User 1 won once as "Al" and twice as "Alan", all in chat 10. *)
Definition renamed_player_db : database :=
  {| scores := [ScoreRow 1 "Al" 5 10 100; ScoreRow 1 "Alan" 5 10 200;
                ScoreRow 1 "Alan" 5 10 300];
     chats := []; now := 1000; db_script := []; lists_first := λ _ _, true |}.

Definition unreachable_db : database :=
  {| scores := [ScoreRow 1 "Al" 5 10 100]; chats := []; now := 1000;
     db_script := [DbNoConnection]; lists_first := λ _ _, true |}.

(** Chat 1 plays a game for which the word service answered with 3 letters. *)
Definition short_word_game : world :=
  handle owner (OnGame (Some (lit "pie")) 0 (says 1 7 "/game")) booted.

End Scenario.

(** ** Further vocabulary for the scoring engine *)

Module ScoringMore.
Import Scoring.

Section marks.
Context {A : Type} {EqA : EqDecision A}.

(** Cells marked absent whose guess letter is [c], on the working list and
    on the result string. *)
Definition red_cells (c : A) (guess : list A) (cells : list (option emoji)) : nat :=
  count_pairs (λ g r, bool_decide (g = c ∧ r = Some Red)) guess cells.

(** What the second loop keeps about the absent marks: a letter is marked
    absent only when the working target holds no more of it, and never to the
    left of a present-elsewhere mark of the same letter. *)
Record absent_inv (guess : list A) (b : board (A:=A)) : Prop := {
  abs_spent : ∀ c,
    red_cells c guess (result_emoji b) = 0%nat ∨ unconsumed c (target_list b) = 0%nat;
  abs_order : ∀ i j g, (i < j)%nat →
    guess !! i = Some g → guess !! j = Some g →
    result_emoji b !! i = Some (Some Red) →
    result_emoji b !! j ≠ Some (Some Yellow)
}.

Definition absent_marks (c : A) (guess : list A) (pattern : list emoji) : nat :=
  count_pairs (λ g m, bool_decide (g = c ∧ m = Red)) guess pattern.

(** The working lists are long enough for both loops. *)
Record long_enough (b : board (A:=A)) : Prop := {
  long_target : (5 ≤ length (target_list b))%nat;
  long_guess : (5 ≤ length (guess_list b))%nat;
  long_result : length (result_emoji b) = 5%nat
}.

(** The lists the first loop reads keep the lengths of the two strings. *)
Definition same_lengths (target guess : list A) (b : board (A:=A)) : Prop :=
  length (target_list b) = length target ∧ length (guess_list b) = length guess.

End marks.

End ScoringMore.

(** ** The rest of the leaderboard controls, and vocabulary for runs *)

Module BotMore.
Import Scoring Store Bot.

(** [s.split(sep)] for a one-character separator. *)
Fixpoint split_on (sep : Ascii.ascii) (s : string) : list string :=
  match s with
  | EmptyString => [EmptyString]
  | String a rest =>
      if decide (a = sep) then EmptyString :: split_on sep rest
      else match split_on sep rest with
           | part :: parts => String a part :: parts
           | [] => [String a EmptyString]
           end
  end.

(** An [InlineKeyboardButton]. *)
Record button := Button { label : string; callback_data : string }.

(** [get_leaderboard_markup]: the rows of the inline keyboard. *)
Definition get_leaderboard_markup (current_time current_scope : string)
    : list (list button) :=
  let new_scope := if decide (current_scope = "global") then "local" else "global" in
  let scope_switch_txt :=
    if decide (current_scope = "global") then "🏠 Local Chat" else "🌍 Global" in
  [ [ Button "📅 Today" ("lb_today_" +:+ current_scope);
      Button "📆 Week" ("lb_week_" +:+ current_scope);
      Button "⏳ All Time" ("lb_all_" +:+ current_scope) ];
    [ Button ("Switch to " +:+ scope_switch_txt)
             ("lb_" +:+ current_time +:+ "_" +:+ new_scope) ] ].

(** [leaderboard_callback] from the data of the pressed button. *)
Definition leaderboard_callback_query (data : string) (u : update) (w : world)
    : world * outcome :=
  leaderboard_callback (split_on "_"%char data) u w.

(** The character does not occur in the string. *)
Definition free_of (sep : Ascii.ascii) (s : string) : Prop :=
  sep ∉ String.list_ascii_of_string s.

(** The session once [text] has been counted as a guess, and once its
    result has been appended to the history. *)
Definition with_guess (g : game) (text : str) : game :=
  {| word := word g; attempts := S (attempts g); active := active g;
     history := history g; guessed_words := guessed_words g ∪ {[text]} |}.

Definition with_result (g : game) (text : str) (pattern : list emoji) : game :=
  {| word := word g; attempts := S (attempts g); active := active g;
     history := history g ++ [(text, pattern)];
     guessed_words := guessed_words g ∪ {[text]} |}.

(** The session [game_command] stores. *)
Definition new_game (target : str) : game :=
  {| word := target; attempts := 0; active := true; history := [];
     guessed_words := ∅ |}.

(** How the counters of a session relate in a run of the bot. *)
Record session_counts (g : game) : Prop := {
  counts_attempts : attempts g = size (guessed_words g);
  counts_history : (length (history g) ≤ attempts g)%nat;
  counts_known : ∀ text pattern, (text, pattern) ∈ history g → text ∈ guessed_words g;
  counts_once : NoDup (history g).*1
}.

(** The chat an event comes from, if it is an update. *)
Definition event_chat (e : event) : option Z :=
  match e with
  | OnStart u | OnGame _ _ u | OnStop u | OnLeaderboard u
  | OnLeaderboardCallback _ u | OnBroadcast _ u | OnMessage u =>
      Some (effective_chat_id u)
  | ClockAdvances _ | ServerFate _ => None
  end.

(** The registered chat ids, in the order of the table. *)
Definition registered (d : database) : list Z := c_chat_id <$> chats d.

End BotMore.

(** * Properties *)

(** ** Loops and counting *)

Lemma for_each_invariant {S : Type} (body : S → nat → option S)
    (I : nat → S → Prop) (n : nat) :
  (∀ k s, (k < n)%nat → I k s → ∃ s', body s k = Some s' ∧ I (Datatypes.S k) s') →
  ∀ s, I 0%nat s → ∃ s', for_each body (seq 0 n) s = Some s' ∧ I n s'.
Proof.
  intros Hbody.
  assert (Hgen : ∀ m k s, (k + m = n)%nat → I k s →
            ∃ s', for_each body (seq k m) s = Some s' ∧ I n s').
  { induction m as [|m IH]; intros k s Hk Hs; simpl.
    - exists s. split; [done|]. by replace n with k by lia.
    - destruct (Hbody k s) as (s1 & -> & Hs1); [lia|done|]. simpl.
      apply IH; [lia|done]. }
  intros s Hs. by apply (Hgen n 0%nat).
Qed.

Lemma list_index_found {X : Type} `{EqDecision X} (x : X) (l : list X) :
  x ∈ l → ∃ j, list_index x l = Some j ∧ l !! j = Some x.
Proof.
  induction l as [|y l IH]; intros Hin; [by apply elem_of_nil in Hin|].
  simpl. destruct (decide (y = x)) as [->|Hne].
  - by exists 0%nat.
  - apply elem_of_cons in Hin as [->|Hin]; [done|].
    destruct (IH Hin) as (j & -> & Hj). by exists (Datatypes.S j).
Qed.

Lemma count_where_insert {X : Type} (P : X → bool) (l : list X) (j : nat) (x x' : X) :
  l !! j = Some x →
  (count_where P (<[j := x']> l) + bit (P x) = count_where P l + bit (P x'))%nat.
Proof.
  revert j. induction l as [|y l IH]; intros [|j] Hj; simplify_eq/=.
  - unfold bit. destruct (P x), (P x'); lia.
  - specialize (IH _ Hj). lia.
Qed.

Lemma count_pairs_insert {X Y : Type} (P : X → Y → bool) (l1 : list X) (l2 : list Y)
    (k : nat) (x : X) (y y' : Y) :
  l1 !! k = Some x → l2 !! k = Some y →
  (count_pairs P l1 (<[k := y']> l2) + bit (P x y)
   = count_pairs P l1 l2 + bit (P x y'))%nat.
Proof.
  revert l2 k. induction l1 as [|a l1 IH]; intros [|b l2] [|k] H1 H2; simplify_eq/=.
  - unfold bit. destruct (P x y), (P x y'); lia.
  - specialize (IH _ _ H1 H2). lia.
Qed.

Lemma count_pairs_ext {X Y : Type} (P Q : X → Y → bool) (l1 : list X) (l2 : list Y) :
  (∀ x y, P x y = Q x y) → count_pairs P l1 l2 = count_pairs Q l1 l2.
Proof.
  intros HPQ. revert l2. induction l1 as [|a l1 IH]; intros [|b l2]; simpl; try done.
  by rewrite HPQ, IH.
Qed.

Lemma count_pairs_fmap_r {X Y Y' : Type} (P : X → Y' → bool) (f : Y → Y')
    (l1 : list X) (l2 : list Y) :
  count_pairs P l1 (f <$> l2) = count_pairs (λ x y, P x (f y)) l1 l2.
Proof.
  revert l2. induction l1 as [|a l1 IH]; intros [|b l2]; simpl; try done.
  by rewrite IH.
Qed.

Lemma join_decided (cells : list (option Scoring.emoji)) :
  (∀ i, (i < length cells)%nat → ∃ m, cells !! i = Some (Some m)) →
  Some <$> Scoring.join cells = cells.
Proof.
  unfold Scoring.join. induction cells as [|c cells IH]; intros Hall; [done|].
  destruct (Hall 0%nat) as [m Hm]; [simpl; lia|]. simplify_eq/=.
  f_equal. apply IH. intros i Hi. apply (Hall (Datatypes.S i)). simpl. lia.
Qed.

(** ** The scoring engine *)

Section scoring_facts.
Import Scoring.
Context {A : Type} {EqA : EqDecision A}.
Implicit Types (T G : list A) (b : board (A:=A)).

(** The first loop computes [green_board]. *)
Lemma green_pass T G :
  length T = 5%nat → length G = 5%nat →
  for_each green_step (seq 0 5) (initial_board T G) = Some (green_board T G).
Proof.
  intros HT HG.
  destruct T as [|t0 [|t1 [|t2 [|t3 [|t4 [|]]]]]]; simplify_eq/=.
  destruct G as [|g0 [|g1 [|g2 [|g3 [|g4 [|]]]]]]; simplify_eq/=.
  unfold green_board, initial_board, green_step; simpl.
  repeat (case_decide; simplify_eq/=); done.
Qed.

Lemma green_board_lookup T G i t g :
  T !! i = Some t → G !! i = Some g →
  target_list (green_board T G) !! i = Some (if decide (g = t) then None else Some t) ∧
  guess_list (green_board T G) !! i = Some (if decide (g = t) then None else Some g) ∧
  result_emoji (green_board T G) !! i
    = Some (if decide (g = t) then Some Green else None).
Proof.
  intros Ht Hg. unfold green_board; simpl.
  rewrite !lookup_zip_with, Ht, Hg. done.
Qed.

Lemma green_board_budget c T G :
  length T = length G →
  (unconsumed c (target_list (green_board T G)) + exact_matches c T G)%nat
  = occurrences c T.
Proof.
  unfold unconsumed, exact_matches, occurrences, green_board; simpl.
  revert G. induction T as [|t T IH]; intros [|g G] Hlen; simplify_eq/=; [done|].
  specialize (IH G Hlen).
  destruct (decide (g = t)) as [->|Hne]; simpl; repeat case_bool_decide;
    simplify_eq/=; try lia; exfalso; intuition congruence.
Qed.

Lemma green_board_no_yellow c T G :
  yellow_cells c G (result_emoji (green_board T G)) = 0%nat.
Proof.
  unfold yellow_cells, green_board; simpl.
  revert G. induction T as [|t T IH]; intros [|g G]; simpl; try done.
  rewrite IH. destruct (decide (g = t)); case_bool_decide; try done;
    exfalso; intuition congruence.
Qed.

Lemma yellow_inv_start T G :
  length T = 5%nat → length G = 5%nat → yellow_inv T G 0 (green_board T G).
Proof.
  intros HT HG. split; try done.
  - unfold green_board; simpl. rewrite length_zip_with. lia.
  - unfold green_board; simpl. rewrite length_zip_with. lia.
  - intros i Hi. lia.
  - intros c. by rewrite green_board_no_yellow.
Qed.

Local Arguments green_board : simpl never.

(** One iteration of the second loop. *)
Lemma yellow_step_inv T G k b :
  length T = 5%nat → length G = 5%nat → (k < 5)%nat →
  yellow_inv T G k b →
  ∃ b', yellow_step b k = Some b' ∧ yellow_inv T G (S k) b'.
Proof.
  intros HT HG Hk [Hgl Htl Hrl Hpend Hdec Hgreen Hbud].
  destruct (lookup_lt_is_Some_2 T k) as [t Ht]; [lia|].
  destruct (lookup_lt_is_Some_2 G k) as [g Hg]; [lia|].
  destruct (green_board_lookup T G k t g Ht Hg) as (Hgt & Hgg & Hgr).
  assert (Hrk : result_emoji b !! k
                = Some (if decide (g = t) then Some Green else None))
    by (rewrite Hpend by lia; done).
  unfold yellow_step. rewrite Hrk. simpl.
  destruct (decide (g = t)) as [->|Hne]; simpl.
  { exists b. split; [done|]. split; try done.
    - intros i Hi. apply Hpend. lia.
    - intros i Hi. destruct (decide (i = k)) as [->|]; [by eexists|].
      apply Hdec. lia. }
  rewrite Hgl, Hgg. simpl.
  destruct (decide (Some g ≠ None ∧ Some g ∈ target_list b)) as [[_ Hin]|Hout].
  - destruct (list_index_found _ _ Hin) as (j & -> & Hj). simpl.
    eexists. split; [done|]. split; cbn [result_emoji target_list guess_list]; try done.
    + by rewrite length_insert.
    + by rewrite length_insert.
    + intros i Hi. rewrite list_lookup_insert_ne by lia. apply Hpend. lia.
    + intros i Hi. destruct (decide (i = k)) as [->|].
      * exists Yellow. apply list_lookup_insert_eq. lia.
      * rewrite list_lookup_insert_ne by done. apply Hdec. lia.
    + intros i. destruct (decide (i = k)) as [->|].
      * rewrite list_lookup_insert_eq by lia. rewrite Hgr.
        split; intros; simplify_eq.
      * rewrite list_lookup_insert_ne by done. apply Hgreen.
    + intros c. rewrite <- (Hbud c). unfold yellow_cells, unconsumed.
      pose proof (count_pairs_insert
        (λ g0 r, bool_decide (g0 = c ∧ r = Some Yellow))
        G (result_emoji b) k g None (Some Yellow) Hg Hrk) as Hy.
      pose proof (count_where_insert (λ o, bool_decide (o = Some c))
        (target_list b) j (Some g) None Hj) as Hu.
      unfold bit in Hy, Hu. repeat case_bool_decide; simplify_eq/=; try lia;
        exfalso; intuition congruence.
  - eexists. split; [done|]. split; cbn [result_emoji target_list guess_list]; try done.
    + by rewrite length_insert.
    + intros i Hi. rewrite list_lookup_insert_ne by lia. apply Hpend. lia.
    + intros i Hi. destruct (decide (i = k)) as [->|].
      * exists Red. apply list_lookup_insert_eq. lia.
      * rewrite list_lookup_insert_ne by done. apply Hdec. lia.
    + intros i. destruct (decide (i = k)) as [->|].
      * rewrite list_lookup_insert_eq by lia. rewrite Hgr.
        split; intros; simplify_eq.
      * rewrite list_lookup_insert_ne by done. apply Hgreen.
    + intros c. rewrite <- (Hbud c). unfold yellow_cells.
      pose proof (count_pairs_insert
        (λ g0 r, bool_decide (g0 = c ∧ r = Some Yellow))
        G (result_emoji b) k g None (Some Red) Hg Hrk) as Hy.
      unfold bit in Hy. repeat case_bool_decide; simplify_eq/=; try lia;
        exfalso; intuition congruence.
Qed.

(** Both loops run to the end on 5-character strings, and the result
    string has the properties of the last board. *)
Lemma format_guess_result_run T G :
  length T = 5%nat → length G = 5%nat →
  ∃ b pattern,
    format_guess_result T G = Some pattern ∧
    yellow_inv T G 5 b ∧
    result_emoji b = Some <$> pattern.
Proof.
  intros HT HG. unfold format_guess_result.
  rewrite green_pass by done. cbn [mbind option_bind].
  destruct (for_each_invariant yellow_step (yellow_inv T G) 5) with
    (s := green_board T G) as (b & Hrun & Hinv).
  - intros k s Hk Hs. by apply yellow_step_inv.
  - by apply yellow_inv_start.
  - exists b, (join (result_emoji b)). rewrite Hrun. cbn [mbind option_bind].
    split; [done|]. split; [done|]. symmetry. apply join_decided.
    intros i Hi. apply (inv_decided _ _ _ _ Hinv).
    by rewrite (inv_result_len _ _ _ _ Hinv) in Hi.
Qed.

Lemma pattern_green_iff T G b pattern i t g :
  yellow_inv T G 5 b → result_emoji b = Some <$> pattern →
  T !! i = Some t → G !! i = Some g →
  pattern !! i = Some Green ↔ g = t.
Proof.
  intros Hinv Hres Ht Hg.
  destruct (green_board_lookup T G i t g Ht Hg) as (_ & _ & Hgr).
  pose proof (inv_green _ _ _ _ Hinv i) as Hgreen.
  rewrite Hres, list_lookup_fmap, Hgr in Hgreen.
  split.
  - intros Hp. rewrite Hp in Hgreen. destruct Hgreen as [Hx _].
    specialize (Hx eq_refl). by destruct (decide (g = t)).
  - intros ->. rewrite decide_True in Hgreen by done.
    destruct Hgreen as [_ Hx]. specialize (Hx eq_refl).
    destruct (pattern !! i); by simplify_eq/=.
Qed.

End scoring_facts.

(** On two 5-character strings the scoring returns without an exception. *)
Lemma format_guess_result_runs {A : Type} {EqA : EqDecision A} (T G : list A) :
  length T = 5%nat → length G = 5%nat →
  ∃ pattern, Scoring.format_guess_result T G = Some pattern.
Proof.
  intros HT HG.
  destruct (format_guess_result_run T G HT HG) as (b & pattern & Hrun & _).
  by exists pattern.
Qed.

(** ** Claims on the scoring engine *)

(** C1: for every target and guess of exactly 5 characters the scoring
    engine returns a pattern in which position [i] is marked exact if and only
    if the guess and the target agree at [i], and for every letter [c] the
    number of present-elsewhere marks on guess letters [c] is at most the
    number of occurrences of [c] in the target minus the number of exact
    matches at positions where the target has [c]. *)
Theorem format_guess_result_exact_and_budget
    {A : Type} {EqA : EqDecision A} (T G : list A) :
  length T = 5%nat → length G = 5%nat →
  ∃ pattern, Scoring.format_guess_result T G = Some pattern ∧
    (∀ i t g, T !! i = Some t → G !! i = Some g →
       pattern !! i = Some Scoring.Green ↔ g = t) ∧
    (∀ c, Z.of_nat (Scoring.present_elsewhere c G pattern)
          ≤ Z.of_nat (Scoring.occurrences c T) - Z.of_nat (Scoring.exact_matches c T G)).
Proof.
  intros HT HG.
  destruct (format_guess_result_run T G HT HG) as (b & pattern & Hrun & Hinv & Hres).
  exists pattern. split; [done|]. split.
  - intros i t g. by apply pattern_green_iff with b.
  - intros c.
    pose proof (Scoring.inv_budget _ _ _ _ Hinv c) as Hbud.
    pose proof (green_board_budget c T G ltac:(congruence)) as Hgreen.
    assert (Hy : Scoring.yellow_cells c G (Scoring.result_emoji b)
                 = Scoring.present_elsewhere c G pattern).
    { rewrite Hres. unfold Scoring.yellow_cells, Scoring.present_elsewhere.
      rewrite count_pairs_fmap_r. apply count_pairs_ext. intros g m.
      apply bool_decide_ext. split; intros [? ?]; split; congruence. }
    lia.
Qed.

Lemma format_guess_result_exact_and_budget_witness :
  (length (lit "SPEED") = 5%nat ∧ length (lit "ERASE") = 5%nat) ∧
  ∃ pattern,
    Scoring.format_guess_result (lit "SPEED") (lit "ERASE") = Some pattern ∧
    (∀ i t g, lit "SPEED" !! i = Some t → lit "ERASE" !! i = Some g →
       pattern !! i = Some Scoring.Green ↔ g = t) ∧
    (∀ c, Z.of_nat (Scoring.present_elsewhere c (lit "ERASE") pattern)
          ≤ Z.of_nat (Scoring.occurrences c (lit "SPEED"))
            - Z.of_nat (Scoring.exact_matches c (lit "SPEED") (lit "ERASE"))).
Proof.
  split; [split; reflexivity|].
  apply (format_guess_result_exact_and_budget (lit "SPEED") (lit "ERASE"));
    reflexivity.
Defined.

(** C2 (as the code has it): for target "APPLE" and guess "ALLEY" the
    pattern is exact, present-elsewhere, absent, present-elsewhere, absent:
    the first L claims the target's only L and the E of the guess finds the
    target's E. *)
Theorem apple_alley_pattern :
  Scoring.format_guess_result (lit "APPLE") (lit "ALLEY")
  = Some [Scoring.Green; Scoring.Yellow; Scoring.Red; Scoring.Yellow; Scoring.Red].
Proof. vm_compute. reflexivity. Qed.

(** C2 as stated (exact, absent, present-elsewhere, absent, absent) is not
    what the engine returns. *)
Lemma apple_alley_not_as_stated :
  Scoring.format_guess_result (lit "APPLE") (lit "ALLEY")
  ≠ Some [Scoring.Green; Scoring.Red; Scoring.Yellow; Scoring.Red; Scoring.Red].
Proof. vm_compute. discriminate. Qed.

(** C10: for every target and guess of 5 characters, whatever the
    characters are, the pattern has exactly 5 markers, and all of them are
    exact if and only if the guess equals the target, which is the test
    [text == game["word"]] the message handler uses to declare a win. *)
Theorem all_exact_iff_win {A : Type} {EqA : EqDecision A} (target guess : list A) :
  length target = 5%nat → length guess = 5%nat →
  ∃ pattern, Scoring.format_guess_result target guess = Some pattern ∧
    length pattern = 5%nat ∧
    (Forall (λ m, m = Scoring.Green) pattern ↔ guess = target).
Proof.
  intros HT HG.
  destruct (format_guess_result_run target guess HT HG)
    as (b & pattern & Hrun & Hinv & Hres).
  exists pattern. split; [done|].
  assert (Hlen : length pattern = 5%nat).
  { rewrite <- (Scoring.inv_result_len _ _ _ _ Hinv), Hres. by rewrite length_fmap. }
  split; [done|]. split.
  - intros Hall. apply list_eq_same_length with 5%nat; try done.
    intros i g t Hi Hg Ht.
    apply (pattern_green_iff target guess b pattern i t g Hinv Hres Ht Hg).
    destruct (lookup_lt_is_Some_2 pattern i) as [m Hm]; [lia|].
    rewrite Hm. f_equal. by apply (Forall_lookup_1 _ _ _ _ Hall Hm).
  - intros ->. apply Forall_lookup_2. intros i m Hm.
    destruct (lookup_lt_is_Some_2 target i) as [t Ht].
    { apply lookup_lt_Some in Hm. lia. }
    assert (Hgreen : pattern !! i = Some Scoring.Green)
      by (by apply (pattern_green_iff target target b pattern i t t Hinv Hres Ht Ht)).
    congruence.
Qed.

(** The strings ABCDÉ and ABCDÈ, of 5 characters each, differ in the last. *)
Lemma all_exact_iff_win_witness :
  let target : str := [65; 66; 67; 68; 201]%N in
  let guess : str := [65; 66; 67; 68; 200]%N in
  (length target = 5%nat ∧ length guess = 5%nat) ∧
  ∃ pattern, Scoring.format_guess_result target guess = Some pattern ∧
    length pattern = 5%nat ∧
    (Forall (λ m, m = Scoring.Green) pattern ↔ guess = target).
Proof.
  intros target guess.
  split; [split; reflexivity|].
  apply (all_exact_iff_win target guess); reflexivity.
Defined.

(** ** The persistent store *)

Section store_facts.
Import Store.

Lemma db_get_leaderboard_db tf scope chat d :
  (db_get_leaderboard tf scope chat d).2 = after_call d.
Proof.
  unfold db_get_leaderboard, db_connect.
  destruct (head (db_script d)) as [[]|]; simpl; try done.
Qed.

Lemma db_add_score_spec uid name pts chat d :
  db_add_score uid name pts chat d
  = if call_succeeds 0 d
    then {| scores := scores d ++ [ScoreRow uid name pts chat (now d)];
            chats := chats d; now := now d; db_script := tail (db_script d);
            lists_first := lists_first d |}
    else after_call d.
Proof.
  destruct d as [sc ch t script].
  unfold db_add_score, db_connect, call_succeeds, after_call; simpl.
  destruct script as [|[] rest]; simpl; try done.
Qed.

Lemma call_succeeds_after_call n d :
  call_succeeds n (after_call d) = call_succeeds (S n) d.
Proof.
  unfold call_succeeds, after_call; simpl. by destruct (db_script d).
Qed.

Lemma db_get_leaderboard_failure tf scope chat d :
  call_succeeds 0 d = false → (db_get_leaderboard tf scope chat d).1 = ([], ∅).
Proof.
  unfold call_succeeds, db_get_leaderboard, db_connect.
  destruct (db_script d) as [|[] rest]; simpl; try done.
Qed.

Lemma db_get_all_chat_ids_spec d :
  db_get_all_chat_ids d
  = (if call_succeeds 0 d then c_chat_id <$> chats d else [], after_call d).
Proof.
  unfold call_succeeds, db_get_all_chat_ids, db_connect.
  destruct (db_script d) as [|[] rest]; simpl; try done.
Qed.

(** *** The leaderboard query *)

Lemma insert_desc_perm first x l : insert_desc first x l ≡ₚ x :: l.
Proof.
  induction l as [|y l IH]; simpl; [done|].
  destruct (_ || _); [done|]. rewrite IH. apply Permutation_swap.
Qed.

Lemma order_by_total_desc_perm first l : order_by_total_desc first l ≡ₚ l.
Proof.
  induction l as [|x l IH]; simpl; [done|].
  by rewrite insert_desc_perm, IH.
Qed.

Lemma insert_desc_sorted first x l :
  StronglySorted total_desc l → StronglySorted total_desc (insert_desc first x l).
Proof.
  induction 1 as [|y l Hsorted IH Hall]; simpl.
  - repeat constructor.
  - destruct ((y.2 <? x.2) || (y.2 =? x.2) && first x.1 y.1) eqn:Hle.
    + assert (y.2 ≤ x.2) by lia. constructor; [by constructor|].
      constructor; [done|]. eapply Forall_impl; [exact Hall|].
      unfold total_desc. intros z Hz. lia.
    + assert (x.2 ≤ y.2) by lia. constructor; [done|].
      rewrite insert_desc_perm. constructor; [|done].
      unfold total_desc. lia.
Qed.

Lemma order_by_total_desc_sorted first l :
  StronglySorted total_desc (order_by_total_desc first l).
Proof.
  induction l as [|x l IH]; simpl; [constructor|]. by apply insert_desc_sorted.
Qed.

Lemma StronglySorted_take {X : Type} (R : relation X) (n : nat) (l : list X) :
  StronglySorted R l → StronglySorted R (take n l).
Proof.
  intros Hsorted. revert n. induction Hsorted as [|x l _ IH Hall]; intros [|n]; simpl;
    try constructor; [done|].
  eapply Forall_forall. intros y Hy. eapply Forall_forall; [exact Hall|].
  eapply elem_of_sublist; [exact Hy|apply sublist_take].
Qed.

Lemma add_to_group_keys uid name pts groups k :
  k ∈ group_key <$> add_to_group uid name pts groups ↔
  k = (uid, name) ∨ k ∈ group_key <$> groups.
Proof.
  induction groups as [|[[u n] t] groups IH]; simpl.
  - rewrite list_elem_of_singleton, elem_of_nil. unfold group_key; simpl. tauto.
  - destruct (decide (u = uid ∧ n = name)) as [[-> ->]|Hne]; simpl.
    + rewrite !elem_of_cons. unfold group_key; simpl. tauto.
    + rewrite !elem_of_cons, IH. tauto.
Qed.

Lemma add_to_group_nodup uid name pts groups :
  NoDup (group_key <$> groups) →
  NoDup (group_key <$> add_to_group uid name pts groups).
Proof.
  induction groups as [|[[u n] t] groups IH]; simpl; intros Hnodup.
  - apply NoDup_singleton.
  - apply NoDup_cons in Hnodup as [Hfresh Hnodup].
    destruct (decide (u = uid ∧ n = name)) as [[-> ->]|Hne]; simpl.
    + by apply NoDup_cons.
    + apply NoDup_cons. split; [|by apply IH].
      rewrite add_to_group_keys. unfold group_key at 1; simpl.
      intros [[= -> ->]|Hin]; [by apply Hne|done].
Qed.

Lemma add_to_group_elem uid name pts groups u n t :
  NoDup (group_key <$> groups) →
  (u, n, t) ∈ add_to_group uid name pts groups →
  (u, n) ≠ (uid, name) ∧ (u, n, t) ∈ groups
  ∨ (u, n) = (uid, name) ∧
    (((uid, name) ∉ group_key <$> groups) ∧ t = pts
     ∨ ∃ t0, (uid, name, t0) ∈ groups ∧ t = t0 + pts).
Proof.
  induction groups as [|[[u0 n0] t0] groups IH]; simpl; intros Hnodup Hin.
  - apply list_elem_of_singleton in Hin as [= -> -> ->].
    right. split; [done|]. left. split; [apply not_elem_of_nil|done].
  - apply NoDup_cons in Hnodup as [Hfresh Hnodup].
    destruct (decide (u0 = uid ∧ n0 = name)) as [[-> ->]|Hne].
    + apply elem_of_cons in Hin as [[= -> -> ->]|Hin].
      * right. split; [done|]. right. exists t0. split; [left|done].
      * left. split; [|by right]. intros [= -> ->]. apply Hfresh.
        apply list_elem_of_fmap. by exists (uid, name, t).
    + apply elem_of_cons in Hin as [[= -> -> ->]|Hin].
      * left. split; [|left]. intros [= -> ->]. by apply Hne.
      * destruct (IH Hnodup Hin) as [[Hk Hg]|[Hk [[Hnew ->]|(t1 & Hg & ->)]]].
        -- left. split; [done|by right].
        -- right. split; [done|]. left. split; [|done].
           rewrite elem_of_cons. unfold group_key at 1; simpl.
           intros [[= -> ->]|Hold]; [by apply Hne|done].
        -- right. split; [done|]. right. exists t1. split; [by right|done].
Qed.

Lemma points_under_snoc uid name rows r :
  points_under uid name (rows ++ [r])
  = points_under uid name rows
    + (if decide (user_id r = uid ∧ user_name r = name) then points r else 0).
Proof. induction rows as [|r0 rows IH]; simpl; [lia|]. rewrite IH. lia. Qed.

Lemma points_under_absent uid name rows :
  (∀ r, r ∈ rows → ¬ (user_id r = uid ∧ user_name r = name)) →
  points_under uid name rows = 0.
Proof.
  induction rows as [|r rows IH]; intros Hnone; simpl; [done|].
  rewrite decide_False by (apply Hnone; left).
  rewrite IH; [done|]. intros r' Hr'. apply Hnone. by right.
Qed.

Lemma groups_of_snoc rows groups r :
  groups_of rows groups →
  groups_of (rows ++ [r]) (add_to_group (user_id r) (user_name r) (points r) groups).
Proof.
  intros [Hnodup Hkeys Htotals]. split.
  - by apply add_to_group_nodup.
  - intros uid name. rewrite add_to_group_keys, Hkeys. split.
    + intros [[= -> ->]|(r0 & Hr0 & Hid & Hname)].
      * exists r. split; [|done]. apply elem_of_app. right. by left.
      * exists r0. split; [|done]. apply elem_of_app. by left.
    + intros (r0 & [Hr0| ->%list_elem_of_singleton]%elem_of_app & Hid & Hname).
      * right. by exists r0.
      * left. congruence.
  - intros uid name total Hin. rewrite points_under_snoc.
    destruct (add_to_group_elem _ _ _ _ _ _ _ Hnodup Hin)
      as [[Hk Hg]|[[= -> ->] [[Hnew ->]|(t0 & Hg & ->)]]].
    + rewrite decide_False by (intros [<- <-]; by apply Hk).
      rewrite (Htotals _ _ _ Hg). lia.
    + rewrite decide_True by done. rewrite points_under_absent; [lia|].
      intros r0 Hr0 [Hid Hname]. apply Hnew, Hkeys. by exists r0.
    + rewrite decide_True by done. rewrite (Htotals _ _ _ Hg). lia.
Qed.

Lemma group_by_user_id_user_name_spec rows :
  groups_of rows (group_by_user_id_user_name rows).
Proof.
  unfold group_by_user_id_user_name.
  induction rows as [|r rows IH] using rev_ind; simpl.
  - split; simpl.
    + apply NoDup_nil_2.
    + intros uid name. rewrite elem_of_nil. split; [done|].
      by intros (r & Hr%elem_of_nil & _).
    + intros uid name total Hin. by apply elem_of_nil in Hin.
  - rewrite foldl_snoc. by apply groups_of_snoc.
Qed.

(** What the query returns: at most 10 groups, in descending order of
    total, one per pair of user id and display name, each with the sum of the
    matching points recorded for that user under that name. *)
Lemma leaderboard_query_spec time_filter scope chat d :
  let results := leaderboard_query time_filter scope chat d in
  (length results ≤ 10)%nat ∧
  StronglySorted total_desc results ∧
  NoDup (group_key <$> results) ∧
  ∀ uid name total, (uid, name, total) ∈ results →
    total = points_under uid name (matching_rows time_filter scope chat d).
Proof.
  intros results. unfold results, leaderboard_query.
  set (rows := matching_rows time_filter scope chat d).
  destruct (group_by_user_id_user_name_spec rows) as [Hnodup _ Htotals].
  split; [rewrite length_take; lia|].
  split; [apply StronglySorted_take, order_by_total_desc_sorted|].
  split.
  - eapply sublist_NoDup; [|apply fmap_sublist, sublist_take].
    by rewrite order_by_total_desc_perm.
  - intros uid name total Hin. apply Htotals.
    rewrite <- order_by_total_desc_perm.
    eapply elem_of_sublist; [exact Hin|apply sublist_take].
Qed.

Lemma db_get_leaderboard_scores time_filter scope chat d :
  call_succeeds 0 d = true →
  (db_get_leaderboard time_filter scope chat d).1.1
  = (λ g, (g.1.1, g.2)) <$> leaderboard_query time_filter scope chat d.
Proof.
  intros Hok.
  assert (Hloop : ∀ results sorted_scores (user_names : gmap Z string),
    (foldl (λ '(sorted_scores, user_names) '(uid, name, total),
              (sorted_scores ++ [(uid, total)], <[uid := name]> user_names))
           (sorted_scores, user_names) results).1
    = sorted_scores ++ ((λ g : Z * string * Z, (g.1.1, g.2)) <$> results)).
  { induction results as [|[[u n] t] results IH]; intros acc names; simpl.
    - by rewrite app_nil_r.
    - rewrite IH. by rewrite <- app_assoc. }
  unfold db_get_leaderboard, db_connect, call_succeeds in *.
  destruct (db_script d) as [|[] rest] eqn:Hscript; simpl in *; try done;
    by rewrite Hloop.
Qed.

End store_facts.

(** ** Sessions in a run of the bot *)

Section bot_facts.
Import Scoring Store Bot.
Context `{PyStr}.
Variable AADII_USER_ID : Z.

Lemma is_game_active_true chat w :
  is_game_active chat w = true ↔
  (∃ g, user_games w !! chat = Some g ∧ active g = true).
Proof.
  unfold is_game_active. destruct (user_games w !! chat) as [g|]; split.
  - intros Hact. by exists g.
  - by intros (g' & [= <-] & Hact).
  - done.
  - by intros (g' & [=] & _).
Qed.

(** A valid guess is scored without an exception, and only the target
    itself is scored all green. *)
Lemma scoring_never_raises_on_target (target text : str) :
  length text = 5%nat →
  format_guess_result target text = None → text ≠ target.
Proof.
  intros Hlen Hnone ->.
  destruct (format_guess_result_runs target target Hlen Hlen) as (p & Hp).
  congruence.
Qed.

(** How [process_message] can change [user_games]. *)
Lemma process_message_games u w :
  let chat := effective_chat_id u in
  user_games (process_message u w).1 = user_games w ∨
  ∃ g text,
    user_games w !! chat = Some g ∧ active g = true ∧
    valid_guess text ∧ (text ∉ guessed_words g) ∧
    (user_games (process_message u w).1 = delete chat (user_games w) ∨
     text ≠ word g ∧ ∃ tries board,
       user_games (process_message u w).1
       = <[chat := {| word := word g; attempts := tries; active := active g;
                      history := board;
                      guessed_words := guessed_words g ∪ {[text]} |}]>
           (user_games w)).
Proof.
  intros chat. unfold process_message. fold chat.
  destruct (message_text u) as [raw|]; [|by left].
  destruct (decide (raw = [])); [by left|].
  set (text := str_upper (str_strip raw)).
  destruct (is_game_active chat w) eqn:Hact; simpl; [|by left].
  destruct (bool_decide (length text = 5%nat)) eqn:Hlen; simpl;
    [|by left].
  destruct (str_isalpha text) eqn:Halpha; simpl; [|by left].
  apply bool_decide_eq_true in Hlen.
  apply is_game_active_true in Hact as (g & Hg & Hactive).
  rewrite Hg. destruct (decide (text ∈ guessed_words g)) as [|Hfresh]; [by left|].
  right. exists g, text. do 4 (split; [done|]).
  destruct (format_guess_result (word g) text) as [pattern|] eqn:Hscore; simpl.
  - destruct (db_get_leaderboard "all" "global" chat (db w)) as [[data names] d1].
    destruct (decide (text = word g)) as [Hwin|Hmiss].
    + destruct (db_get_leaderboard "all" "global" chat
                  (db_add_score (effective_user_id u) (first_name u) 5 chat d1))
        as [[data' names'] d3]. by left.
    + right. split; [done|]. by eexists _, _.
  - right. split; [by eapply scoring_never_raises_on_target|]. by eexists _, _.
Qed.

Lemma sessions_ok_handle e w :
  sessions_ok w → sessions_ok (handle AADII_USER_ID e w).
Proof.
  intros Hok. destruct e as [u|api pick u|u|u|parts u|delivers u|u|t|script];
    simpl; try done.
  - unfold game_command. destruct (is_game_active _ w); [done|]. simpl.
    intros chat g; simpl. rewrite lookup_insert. case_decide.
    + intros [= <-]. split; simpl; [done|set_solver|set_solver].
    + apply Hok.
  - unfold stop_command. destruct (user_games w !! effective_chat_id u) as [g|];
      [|done]. destruct (active g); [|done]. simpl.
    intros chat g'; simpl. rewrite lookup_delete. case_decide; [done|apply Hok].
  - unfold leaderboard_command. by destruct (get_leaderboard_text _ _ _ _).
  - unfold leaderboard_callback.
    destruct parts as [|? [|? [|? [|]]]]; try done.
    by destruct (get_leaderboard_text _ _ _ _).
  - unfold broadcast_command. case_decide; [done|].
    destruct (reply_to_message u) as [m|]; [|done].
    destruct (db_get_all_chat_ids (db w)) as [ids d'].
    destruct (content_type m); [|done].
    by destruct (foldl _ _ ids).
  - unfold sessions_ok.
    destruct (process_message_games u w)
      as [->|(g & text & Hg & Hact & Hvalid & Hfresh & Hnew)]; [done|].
    destruct (Hok _ _ Hg) as [_ Hunsolved Hguesses].
    destruct Hnew as [->|(Hmiss & tries & board & ->)].
    + intros chat g'; simpl. rewrite lookup_delete. case_decide; [done|apply Hok].
    + intros chat g'; simpl. rewrite lookup_insert. case_decide; [|apply Hok].
      intros [= <-]. split; simpl; [done| |].
      { rewrite not_elem_of_union, not_elem_of_singleton. split; [done|congruence]. }
      intros x [Hx| ->%elem_of_singleton]%elem_of_union; [by apply Hguesses|done].
Qed.

Lemma reachable_sessions_ok w : reachable AADII_USER_ID w → sessions_ok w.
Proof.
  induction 1 as [d|e w _ IH].
  - intros chat g; simpl. by rewrite lookup_empty.
  - by apply sessions_ok_handle.
Qed.

End bot_facts.

(** ** Claims on the handlers *)

Section handler_claims.
Import Scoring Store Bot.
Context {py : PyStr}.
Variable AADII_USER_ID : Z.

Lemma broadcast_loop delivers here ids n log :
  foldl (broadcast_step delivers here) (n, log) ids
  = ((n + count_where delivers (filter (λ c, c ≠ here) ids))%nat,
     log ++ filter (λ c, c ≠ here) ids).
Proof.
  revert n log. induction ids as [|c ids IH]; intros n log; simpl.
  - by rewrite Nat.add_0_r, app_nil_r.
  - rewrite filter_cons. unfold broadcast_step at 2.
    destruct (decide (c = here)) as [->|Hne].
    + rewrite decide_False by naive_solver. apply IH.
    + rewrite decide_True by done. simpl.
      destruct (delivers c); rewrite IH; simpl; rewrite <- app_assoc; simpl;
        f_equal; lia.
Qed.

(** C4 (as the code has it): when an active session exists and a submitted
    guess equals the target word, the handler answers with the win summary,
    removes the session, after which a stop request on that chat reports
    that no game is active, and adds to the scores exactly one record for
    that user and chat with 5 points if the store accepts the insert, and
    none if it does not. *)
Theorem win_ends_session_and_records_score u w g raw :
  reachable AADII_USER_ID w →
  submits u raw →
  user_games w !! effective_chat_id u = Some g →
  active g = true →
  valid_guess (normalise raw) →
  normalise raw = word g →
  let after := (process_message u w).1 in
  (∃ total board,
     (process_message u w).2
     = Replied (Victory (first_name u) (S (attempts g)) total board)) ∧
  user_games after = delete (effective_chat_id u) (user_games w) ∧
  scores (db after)
  = scores (db w) ++
      (if call_succeeds 1 (db w)
       then [ScoreRow (effective_user_id u) (first_name u) 5 (effective_chat_id u)
               (now (db w))]
       else []) ∧
  ∀ u', effective_chat_id u' = effective_chat_id u →
    stop_command u' after = (after, Replied NoActiveGame).
Proof.
  intros Hreach [Htext Hraw] Hg Hact [Hlen Halpha] Hwin.
  destruct (reachable_sessions_ok _ _ Hreach _ _ Hg) as [_ Hunsolved _].
  unfold normalise in *.
  destruct (format_guess_result_runs (word g) (str_upper (str_strip raw)))
    as (pattern & Hscore); [congruence|done|].
  unfold process_message. rewrite Htext.
  rewrite decide_False by done.
  assert (Hactive : is_game_active (effective_chat_id u) w = true)
    by (apply is_game_active_true; eauto).
  rewrite Hactive, Halpha, bool_decide_eq_true_2 by done. simpl. rewrite Hg.
  rewrite decide_False by (by rewrite Hwin).
  rewrite Hscore.
  pose proof (db_get_leaderboard_db "all" "global" (effective_chat_id u) (db w)) as Hd1.
  destruct (db_get_leaderboard "all" "global" (effective_chat_id u) (db w))
    as [[data names] d1]. simpl in Hd1. subst d1.
  rewrite !decide_True by done.
  pose proof (db_get_leaderboard_db "all" "global" (effective_chat_id u)
    (db_add_score (effective_user_id u) (first_name u) 5 (effective_chat_id u)
       (after_call (db w)))) as Hd3.
  destruct (db_get_leaderboard "all" "global" (effective_chat_id u)
    (db_add_score (effective_user_id u) (first_name u) 5 (effective_chat_id u)
       (after_call (db w)))) as [[data' names'] d3]. simpl in Hd3. subst d3.
  simpl. split; [by eexists _, _|]. split; [done|]. split.
  - rewrite db_add_score_spec, call_succeeds_after_call.
    destruct (call_succeeds 1 (db w)); simpl; [done|by rewrite app_nil_r].
  - intros u' Hchat. unfold stop_command. simpl. rewrite Hchat.
    by rewrite lookup_delete_eq.
Qed.

(** C5: in a run of the bot, submitting a text whose normal form is already
    in the session's guessed words is answered with the duplicate-guess
    error and leaves the whole state as it was: attempts, history, guessed
    words and the scores table. *)
Theorem duplicate_guess_rejected u w g raw :
  reachable AADII_USER_ID w →
  submits u raw →
  user_games w !! effective_chat_id u = Some g →
  active g = true →
  normalise raw ∈ guessed_words g →
  process_message u w = (w, Replied (DuplicateGuess (normalise raw))).
Proof.
  intros Hreach [Htext Hraw] Hg Hact Hdup.
  destruct (reachable_sessions_ok _ _ Hreach _ _ Hg) as [_ _ Hguesses].
  destruct (Hguesses _ Hdup) as [Hlen Halpha].
  unfold normalise in *. unfold process_message. rewrite Htext.
  rewrite decide_False by done.
  assert (Hactive : is_game_active (effective_chat_id u) w = true)
    by (apply is_game_active_true; eauto).
  rewrite Hactive, Halpha, bool_decide_eq_true_2 by done. simpl. rewrite Hg.
  by rewrite decide_True.
Qed.

(** C6: a start request on a chat with an active session is answered with
    the already-active error and changes nothing, so the session keeps its
    target word, attempts, history, guessed words and active flag. *)
Theorem start_on_active_chat_rejected api pick u w g :
  user_games w !! effective_chat_id u = Some g →
  active g = true →
  game_command api pick u w = (w, Replied AlreadyActive) ∧
  user_games (game_command api pick u w).1 !! effective_chat_id u = Some g.
Proof.
  intros Hg Hact. unfold game_command.
  assert (Hactive : is_game_active (effective_chat_id u) w = true)
    by (apply is_game_active_true; eauto).
  by rewrite Hactive.
Qed.


(** C9 on the broadcasts the bot can receive: the replied message is a
    [telegram.Message], reading its [content_type] raises, and the owner's
    broadcast answers that the type of message cannot be broadcast, without
    attempting a single send, whatever the registered chats and the
    transport, where the claim has every other registered chat attempted and
    the successes reported out of the total. *)
Theorem broadcast_stops_before_any_send delivers u w m :
  effective_user_id u = AADII_USER_ID →
  reply_to_message u = Some m →
  content_type m = None →
  broadcast_command AADII_USER_ID delivers u w
  = ({| user_games := user_games w; db := after_call (db w) |},
     Replied BroadcastBadType, []).
Proof.
  intros Howner Hm Hkind. unfold broadcast_command.
  rewrite decide_False by (by intros []).
  rewrite Hm, db_get_all_chat_ids_spec. simpl. by rewrite Hkind.
Qed.

End handler_claims.

(** C8: when the leaderboard query meets no connection or a failing
    statement, it returns the empty sequence and the empty name mapping,
    whatever the time filter, the scope and the chat id, and the panel shows
    no line. *)
Theorem leaderboard_empty_on_failure time_filter scope chat d :
  head (Store.db_script d) = Some Store.DbNoConnection
  ∨ head (Store.db_script d) = Some Store.DbQueryError →
  (Store.db_get_leaderboard time_filter scope chat d).1 = ([], ∅) ∧
  (Bot.get_leaderboard_text time_filter scope chat d).1
  = Bot.LeaderboardPanel time_filter scope [].
Proof.
  intros Hfail.
  assert (Hcall : Store.call_succeeds 0 d = false).
  { unfold Store.call_succeeds. destruct (Store.db_script d) as [|o rest]; simpl in *.
    - by destruct Hfail.
    - by destruct Hfail as [[= ->]|[= ->]]. }
  pose proof (db_get_leaderboard_failure time_filter scope chat d Hcall) as Hempty.
  split; [done|]. unfold Bot.get_leaderboard_text.
  destruct (Store.db_get_leaderboard time_filter scope chat d) as [[data names] d'].
  simpl in Hempty. by simplify_eq.
Qed.

(** ** The claims on concrete runs *)

Section concrete_runs.
Import Scoring Store Bot Scenario.
#[local] Existing Instance Latin1Text.ops.

Lemma apple_game_reachable : reachable owner apple_game.
Proof. apply reachable_step, reachable_boot. Defined.

Lemma apple_game_after_brain_reachable : reachable owner apple_game_after_brain.
Proof. apply reachable_step, apple_game_reachable. Defined.

Lemma apple_game_server_down_reachable : reachable owner apple_game_server_down.
Proof. apply reachable_step, apple_game_reachable. Defined.

Lemma win_ends_session_and_records_score_witness :
  let u := says 1 7 " apple" in
  let g := {| word := lit "APPLE"; attempts := 0; active := true; history := [];
              guessed_words := ∅ |} in
  (reachable owner apple_game ∧ submits u (lit " apple") ∧
   user_games apple_game !! 1 = Some g ∧ active g = true ∧
   valid_guess (normalise (lit " apple")) ∧ normalise (lit " apple") = word g) ∧
  user_games (process_message u apple_game).1 = delete 1 (user_games apple_game) ∧
  scores (db (process_message u apple_game).1) = [ScoreRow 7 "Ada" 5 1 1000].
Proof.
  intros u g.
  assert (Hsub : submits u (lit " apple")) by (split; [reflexivity|discriminate]).
  assert (Hg : user_games apple_game !! effective_chat_id u = Some g)
    by (vm_compute; reflexivity).
  assert (Hvalid : valid_guess (normalise (lit " apple")))
    by (split; vm_compute; reflexivity).
  assert (Hwin : normalise (lit " apple") = word g) by (vm_compute; reflexivity).
  split;
    [exact (conj apple_game_reachable
              (conj Hsub (conj Hg (conj eq_refl (conj Hvalid Hwin)))))|].
  destruct (win_ends_session_and_records_score owner u apple_game g (lit " apple")
              apple_game_reachable Hsub Hg eq_refl Hvalid Hwin)
    as (_ & Hgames & Hscores & _).
  split; [exact Hgames|exact Hscores].
Defined.

(** C4 as stated fails when the store rejects the insert: the guess equals
    the target of the active session, the session is removed, and the
    scores table is what it was. *)
Lemma win_without_score_record :
  let u := says 1 7 " apple" in
  let w := apple_game_server_down in
  reachable owner w ∧
  (∃ g, user_games w !! 1 = Some g ∧ active g = true ∧
        normalise (lit " apple") = word g) ∧
  (∃ total board, (process_message u w).2 = Replied (Victory "Ada" 1 total board)) ∧
  user_games (process_message u w).1 !! 1 = None ∧
  scores (db (process_message u w).1) = scores (db w) ∧
  scores (db w) = [].
Proof.
  intros u w. split; [apply apple_game_server_down_reachable|].
  split; [eexists; by vm_compute|].
  split; [eexists _, _; by vm_compute|].
  by vm_compute.
Qed.

Lemma duplicate_guess_rejected_witness :
  let u := says 1 8 "Brain" in
  let g := {| word := lit "APPLE"; attempts := 1; active := true;
              history := [(lit "BRAIN", [Red; Red; Yellow; Red; Red])];
              guessed_words := ∅ ∪ {[lit "BRAIN"]} |} in
  (reachable owner apple_game_after_brain ∧ submits u (lit "Brain") ∧
   user_games apple_game_after_brain !! 1 = Some g ∧ active g = true ∧
   normalise (lit "Brain") ∈ guessed_words g) ∧
  process_message u apple_game_after_brain
  = (apple_game_after_brain, Replied (DuplicateGuess (lit "BRAIN"))).
Proof.
  intros u g.
  assert (Hsub : submits u (lit "Brain")) by (split; [reflexivity|discriminate]).
  assert (Hg : user_games apple_game_after_brain !! effective_chat_id u = Some g)
    by (vm_compute; reflexivity).
  assert (Hdup : normalise (lit "Brain") ∈ guessed_words g)
    by (vm_compute; reflexivity).
  split;
    [exact (conj apple_game_after_brain_reachable
              (conj Hsub (conj Hg (conj eq_refl Hdup))))|].
  exact (duplicate_guess_rejected owner u apple_game_after_brain g (lit "Brain")
           apple_game_after_brain_reachable Hsub Hg eq_refl Hdup).
Defined.

Lemma start_on_active_chat_rejected_witness :
  let u := says 1 8 "/game" in
  let g := {| word := lit "APPLE"; attempts := 0; active := true; history := [];
              guessed_words := ∅ |} in
  (user_games apple_game !! 1 = Some g ∧ active g = true) ∧
  game_command (Some (lit "melon")) 3 u apple_game
  = (apple_game, Replied AlreadyActive) ∧
  user_games (game_command (Some (lit "melon")) 3 u apple_game).1 !! 1 = Some g.
Proof.
  intros u g.
  assert (Hg : user_games apple_game !! effective_chat_id u = Some g)
    by (vm_compute; reflexivity).
  split; [exact (conj Hg eq_refl)|].
  exact (start_on_active_chat_rejected (Some (lit "melon")) 3 u apple_game g
           Hg eq_refl).
Defined.


Lemma broadcast_stops_before_any_send_witness :
  let u := broadcast_from 9 in
  (effective_user_id u = owner ∧
   reply_to_message u = Some {| content_type := None |} ∧
   content_type {| content_type := None |} = None) ∧
  registered_ids_of five_chats = [1; 2; 3; 4; 5] ∧
  broadcast_command owner all_but_chat_2 u five_chats
  = ({| user_games := user_games five_chats; db := after_call (db five_chats) |},
     Replied BroadcastBadType, []).
Proof.
  intros u.
  split; [exact (conj eq_refl (conj eq_refl eq_refl))|].
  split; [reflexivity|].
  exact (broadcast_stops_before_any_send owner all_but_chat_2 u five_chats
           {| content_type := None |} eq_refl eq_refl eq_refl).
Defined.

Lemma leaderboard_empty_on_failure_witness :
  (head (db_script unreachable_db) = Some DbNoConnection
   ∨ head (db_script unreachable_db) = Some DbQueryError) ∧
  (db_get_leaderboard "week" "local" 10 unreachable_db).1 = ([], ∅) ∧
  (get_leaderboard_text "week" "local" 10 unreachable_db).1
  = LeaderboardPanel "week" "local" [].
Proof.
  split; [left; reflexivity|].
  apply (leaderboard_empty_on_failure "week" "local" 10 unreachable_db).
  left. reflexivity.
Defined.

(** C3 on a player who changed display name: user 1 holds three matching
    records of 5 points, 15 in all, two of them under a second name. The
    query returns user 1 twice, with totals 10 and 5, and one name for both
    entries, where the claim has one entry per user id with the sum of all
    its matching points. *)
Theorem leaderboard_splits_renamed_player :
  points_of_user 1 (matching_rows "all" "global" 10 renamed_player_db) = 15 ∧
  (db_get_leaderboard "all" "global" 10 renamed_player_db).1
  = ([(1, 10); (1, 5)], {[1 := "Al"]}).
Proof. split; vm_compute; reflexivity. Qed.

End concrete_runs.

(** * Further properties of the program *)

(** ** Scoring: short strings, absent letters, repeated letters *)

Lemma for_each_fails {S : Type} (body : S → nat → option S) (I : S → Prop) (m n : nat) :
  (m < n)%nat →
  (∀ k s, (k < m)%nat → I s → ∃ s', body s k = Some s' ∧ I s') →
  (∀ s, I s → body s m = None) →
  ∀ s, I s → for_each body (seq 0 n) s = None.
Proof.
  intros Hm Hbefore Hat.
  assert (Hgen : ∀ j k s, (k ≤ m)%nat → (k + j = n)%nat → I s →
            for_each body (seq k j) s = None).
  { induction j as [|j IH]; intros k s Hk Hkj Hs; [lia|]. simpl.
    destruct (decide (k = m)) as [->|Hne].
    - by rewrite Hat.
    - destruct (Hbefore k s) as (s' & -> & Hs'); [lia|done|]. simpl.
      apply IH; [lia|lia|done]. }
  intros s Hs. by apply (Hgen n 0%nat); [lia|lia|].
Qed.

Lemma count_where_absent {X : Type} `{EqDecision X} (x : X) (l : list X) :
  x ∉ l → count_where (λ y, bool_decide (y = x)) l = 0%nat.
Proof.
  induction l as [|y l IH]; intros Hout; simpl; [done|].
  apply not_elem_of_cons in Hout as [Hne Hout].
  rewrite bool_decide_eq_false_2 by congruence. by rewrite IH.
Qed.

Lemma count_where_present {X : Type} `{EqDecision X} (x : X) (l : list X) :
  x ∈ l → (0 < count_where (λ y, bool_decide (y = x)) l)%nat.
Proof.
  induction l as [|y l IH]; intros Hin; simpl; [by apply elem_of_nil in Hin|].
  apply elem_of_cons in Hin as [->|Hin].
  - rewrite bool_decide_eq_true_2 by done. lia.
  - specialize (IH Hin). lia.
Qed.

Lemma count_pairs_zero {X Y : Type} (P : X → Y → bool) (l1 : list X) (l2 : list Y)
    (i : nat) (x : X) (y : Y) :
  count_pairs P l1 l2 = 0%nat → l1 !! i = Some x → l2 !! i = Some y → P x y = false.
Proof.
  revert l2 i. induction l1 as [|a l1 IH]; intros [|b l2] [|i] Hzero H1 H2;
    simplify_eq/=.
  - destruct (P x y); [lia|done].
  - apply (IH l2 i); [lia|done|done].
Qed.

Lemma count_pairs_positive {X Y : Type} (P : X → Y → bool) (l1 : list X) (l2 : list Y)
    (i : nat) (x : X) (y : Y) :
  l1 !! i = Some x → l2 !! i = Some y → P x y = true →
  (0 < count_pairs P l1 l2)%nat.
Proof.
  intros H1 H2 HP. destruct (count_pairs P l1 l2) as [|n] eqn:Hcount; [|lia].
  rewrite (count_pairs_zero P l1 l2 i x y Hcount H1 H2) in HP. done.
Qed.

Section scoring_more.
Import Scoring ScoringMore.
Context {A : Type} {EqA : EqDecision A}.
Implicit Types (T G : list A) (b : board (A:=A)).

Lemma green_step_long b i :
  (i < 5)%nat → long_enough b → ∃ b', green_step b i = Some b' ∧ long_enough b'.
Proof.
  intros Hi [Ht Hg Hr]. unfold green_step.
  destruct (lookup_lt_is_Some_2 (guess_list b) i) as [g ->]; [lia|].
  destruct (lookup_lt_is_Some_2 (target_list b) i) as [t ->]; [lia|]. simpl.
  destruct (decide (g = t)); eexists; (split; [done|]); [|done].
  split; simpl; by rewrite length_insert.
Qed.

Lemma yellow_step_long b i :
  (i < 5)%nat → long_enough b → ∃ b', yellow_step b i = Some b' ∧ long_enough b'.
Proof.
  intros Hi [Ht Hg Hr]. unfold yellow_step.
  destruct (lookup_lt_is_Some_2 (result_emoji b) i) as [r ->]; [lia|]. simpl.
  destruct r as [m|]; [by eexists|].
  destruct (lookup_lt_is_Some_2 (guess_list b) i) as [g ->]; [lia|]. simpl.
  destruct (decide (g ≠ None ∧ g ∈ target_list b)) as [[_ Hin]|_].
  - destruct (list_index_found _ _ Hin) as (j & -> & _). simpl.
    eexists. split; [done|]. split; simpl; by rewrite ?length_insert.
  - eexists. split; [done|]. split; simpl; by rewrite ?length_insert.
Qed.

Lemma format_guess_result_long T G :
  (5 ≤ length T)%nat → (5 ≤ length G)%nat →
  ∃ pattern, format_guess_result T G = Some pattern.
Proof.
  intros HT HG. unfold format_guess_result.
  destruct (for_each_invariant green_step (λ _ (b : board (A:=A)), long_enough b) 5) with
    (s := initial_board T G) as (b1 & -> & Hb1).
  { intros k s Hk Hs. by apply green_step_long. }
  { split; simpl; by rewrite ?length_fmap. }
  cbn [mbind option_bind].
  destruct (for_each_invariant yellow_step (λ _ (b : board (A:=A)), long_enough b) 5) with
    (s := b1) as (b2 & -> & Hb2); [|done|by eexists].
  intros k s Hk Hs. by apply yellow_step_long.
Qed.

Lemma green_loop_short T G :
  (length T < 5)%nat ∨ (length G < 5)%nat →
  for_each green_step (seq 0 5) (initial_board T G) = None.
Proof.
  intros Hshort.
  apply (for_each_fails green_step (same_lengths T G)
           (Nat.min (length G) (length T))); [lia| | |].
  - intros k s Hk [Ht Hg]. unfold green_step.
    destruct (lookup_lt_is_Some_2 (guess_list s) k) as [g ->]; [lia|].
    destruct (lookup_lt_is_Some_2 (target_list s) k) as [t ->]; [lia|]. simpl.
    destruct (decide (g = t)); eexists; (split; [done|]); [|done].
    split; simpl; by rewrite length_insert.
  - intros s [Ht Hg]. unfold green_step.
    destruct (decide (length G ≤ length T)%nat) as [Hle|Hgt].
    + rewrite Nat.min_l by done.
      by rewrite (lookup_ge_None_2 (guess_list s)) by lia.
    + rewrite Nat.min_r by lia.
      destruct (lookup_lt_is_Some_2 (guess_list s) (length T)) as [g ->]; [lia|].
      simpl. by rewrite (lookup_ge_None_2 (target_list s)) by lia.
  - split; simpl; by rewrite length_fmap.
Qed.

(** X1: the scoring raises ([IndexError]) exactly when one of the two strings
    has fewer than 5 characters; on longer strings it returns a pattern. *)
Theorem format_guess_result_raises_iff_short T G :
  format_guess_result T G = None ↔ (length T < 5)%nat ∨ (length G < 5)%nat.
Proof.
  split.
  - intros Hnone.
    destruct (decide (5 ≤ length T)%nat) as [HT|HT]; [|left; lia].
    destruct (decide (5 ≤ length G)%nat) as [HG|HG]; [|right; lia].
    destruct (format_guess_result_long T G HT HG) as [pattern Hsome]. congruence.
  - intros Hshort. unfold format_guess_result.
    by rewrite green_loop_short.
Qed.

End scoring_more.

Section scoring_absent.
Import Scoring ScoringMore.
Context {A : Type} {EqA : EqDecision A}.
Implicit Types (T G : list A) (b : board (A:=A)).

Local Arguments green_board : simpl never.

Lemma green_board_cell T G i m :
  result_emoji (green_board T G) !! i = Some (Some m) → m = Green.
Proof.
  unfold green_board; cbn [result_emoji]. rewrite lookup_zip_with.
  destruct (T !! i) as [t|]; simpl; [|done].
  destruct (G !! i) as [g|]; simpl; [|done].
  destruct (decide (g = t)); by intros [= <-].
Qed.

Lemma absent_inv_start T G : absent_inv G (green_board T G).
Proof.
  split.
  - intros c. left. unfold red_cells, green_board; cbn [result_emoji].
    clear. revert T. induction G as [|g G IH]; intros [|t T]; simpl; try done.
    rewrite IH. destruct (decide (g = t)); case_bool_decide; try done;
      exfalso; intuition congruence.
  - intros i j g _ _ _ Hred. by apply green_board_cell in Hred.
Qed.

Lemma absent_inv_step T G k b b' :
  length T = 5%nat → length G = 5%nat → (k < 5)%nat →
  yellow_inv T G k b → absent_inv G b →
  yellow_step b k = Some b' → absent_inv G b'.
Proof.
  intros HT HG Hk [Hgl Htl Hrl Hpend Hdec Hgreen Hbud] [Hspent Horder] Hstep.
  destruct (lookup_lt_is_Some_2 T k) as [t Ht]; [lia|].
  destruct (lookup_lt_is_Some_2 G k) as [g Hg]; [lia|].
  destruct (green_board_lookup T G k t g Ht Hg) as (Hgt & Hgg & Hgr).
  assert (Hrk : result_emoji b !! k
                = Some (if decide (g = t) then Some Green else None))
    by (rewrite Hpend by lia; done).
  unfold yellow_step in Hstep. rewrite Hrk in Hstep. simpl in Hstep.
  destruct (decide (g = t)) as [->|Hne]; simpl in Hstep; [by simplify_eq|].
  rewrite Hgl, Hgg in Hstep. simpl in Hstep.
  destruct (decide (Some g ≠ None ∧ Some g ∈ target_list b)) as [[_ Hin]|Hout].
  - destruct (list_index_found _ _ Hin) as (j & Hindex & Hj).
    rewrite Hindex in Hstep. simpl in Hstep. simplify_eq.
    split; cbn [result_emoji target_list guess_list].
    + intros c. destruct (Hspent c) as [Hred|Hun]; [left|right].
      * pose proof (count_pairs_insert
          (λ g0 r, bool_decide (g0 = c ∧ r = Some Red))
          G (result_emoji b) k g None (Some Yellow) Hg Hrk) as Hcount.
        unfold red_cells in *. unfold bit in Hcount.
        repeat case_bool_decide; simplify_eq/=; try lia; exfalso; intuition congruence.
      * pose proof (count_where_insert (λ o, bool_decide (o = Some c))
          (target_list b) j (Some g) None Hj) as Hcount.
        unfold unconsumed in *. unfold bit in Hcount.
        repeat case_bool_decide; simplify_eq/=; lia.
    + intros i j0 g0 Hij Hi Hj0.
      destruct (decide (i = k)) as [->|Hik].
      { rewrite list_lookup_insert_eq by lia. done. }
      rewrite (list_lookup_insert_ne _ k i) by done. intros Hred.
      destruct (decide (j0 = k)) as [->|Hjk]; [|rewrite list_lookup_insert_ne by done;
        by eapply Horder].
      simplify_eq. exfalso.
      assert (Hpos : (0 < red_cells g G (result_emoji b))%nat).
      { apply (count_pairs_positive _ _ _ i g (Some Red)); [done|done|].
        by apply bool_decide_eq_true_2. }
      pose proof (count_where_present (Some g) (target_list b) Hin) as Hleft.
      unfold unconsumed in Hspent. destruct (Hspent g); lia.
  - simplify_eq.
    assert (Hgone : Some g ∉ target_list b) by (intros Hin; by apply Hout).
    split; cbn [result_emoji target_list guess_list].
    + intros c. destruct (decide (c = g)) as [->|Hcg].
      { right. by apply count_where_absent. }
      destruct (Hspent c) as [Hred|Hun]; [left|by right].
      pose proof (count_pairs_insert
        (λ g0 r, bool_decide (g0 = c ∧ r = Some Red))
        G (result_emoji b) k g None (Some Red) Hg Hrk) as Hcount.
      unfold red_cells in *. unfold bit in Hcount.
      repeat case_bool_decide; simplify_eq/=; try lia; exfalso; intuition congruence.
    + intros i j0 g0 Hij Hi Hj0.
      destruct (decide (j0 = k)) as [->|Hjk].
      { rewrite (list_lookup_insert_eq _ k) by lia. done. }
      rewrite (list_lookup_insert_ne _ k j0) by done.
      destruct (decide (i = k)) as [->|Hik];
        [|rewrite list_lookup_insert_ne by done; by eapply Horder].
      intros _. rewrite Hpend by lia. intros Hyellow.
      by apply green_board_cell in Hyellow.
Qed.

(** The run of both loops with everything the two invariants give. *)
Lemma format_guess_result_run_absent T G :
  length T = 5%nat → length G = 5%nat →
  ∃ b pattern,
    format_guess_result T G = Some pattern ∧
    yellow_inv T G 5 b ∧ absent_inv G b ∧
    result_emoji b = Some <$> pattern.
Proof.
  intros HT HG. unfold format_guess_result.
  rewrite green_pass by done. cbn [mbind option_bind].
  destruct (for_each_invariant yellow_step
              (λ k b, yellow_inv T G k b ∧ absent_inv G b) 5) with
    (s := green_board T G) as (b & Hrun & Hinv & Habs).
  - intros k s Hk [Hs Ha].
    destruct (yellow_step_inv T G k s HT HG Hk Hs) as (s' & Hstep & Hs').
    exists s'. split; [done|]. split; [done|]. by apply (absent_inv_step T G k s s').
  - split; [by apply yellow_inv_start|apply absent_inv_start].
  - exists b, (join (result_emoji b)). rewrite Hrun. cbn [mbind option_bind].
    split; [done|]. split; [done|]. split; [done|]. symmetry. apply join_decided.
    intros i Hi. apply (inv_decided _ _ _ _ Hinv).
    by rewrite (inv_result_len _ _ _ _ Hinv) in Hi.
Qed.

Lemma yellow_cells_pattern c G (pattern : list emoji) :
  yellow_cells c G (Some <$> pattern) = present_elsewhere c G pattern.
Proof.
  unfold yellow_cells, present_elsewhere.
  rewrite count_pairs_fmap_r. apply count_pairs_ext. intros g m.
  apply bool_decide_ext. split; intros [? ?]; split; congruence.
Qed.

Lemma red_cells_pattern c G (pattern : list emoji) :
  red_cells c G (Some <$> pattern) = absent_marks c G pattern.
Proof.
  unfold red_cells, absent_marks.
  rewrite count_pairs_fmap_r. apply count_pairs_ext. intros g m.
  apply bool_decide_ext. split; intros [? ?]; split; congruence.
Qed.

(** Every guess letter [c] is counted once: at an exact match, at a
    present-elsewhere mark or at an absent mark. *)
Lemma marks_partition c T G (pattern : list emoji) :
  length T = length G → length pattern = length G →
  (∀ i t g, T !! i = Some t → G !! i = Some g →
     pattern !! i = Some Green ↔ g = t) →
  occurrences c G
  = (exact_matches c T G + present_elsewhere c G pattern + absent_marks c G pattern)%nat.
Proof.
  unfold occurrences, exact_matches, present_elsewhere, absent_marks.
  revert T pattern. induction G as [|g G IH]; intros [|t T] [|m pattern] HT HP Hgreen;
    simplify_eq/=; [done|].
  rewrite (IH T pattern) by (try done; intros i; apply (Hgreen (S i))).
  pose proof (Hgreen 0%nat t g eq_refl eq_refl) as Hhead. simpl in Hhead.
  destruct (decide (g = t)) as [->|Hne].
  - assert (m = Green) as -> by (destruct Hhead as [_ Hback]; specialize (Hback eq_refl); congruence).
    repeat case_bool_decide; simplify_eq/=; try lia; exfalso; intuition congruence.
  - assert (m ≠ Green) by (intros ->; by apply Hne, Hhead).
    destruct m; [done| |]; repeat case_bool_decide; simplify_eq/=; try lia;
      exfalso; intuition congruence.
Qed.

(** X2: on 5-character strings, the number of present-elsewhere marks on a
    guess letter is the smaller of the occurrences of the letter left in the
    target and of those left in the guess once the exact matches are taken
    out. *)
Theorem present_elsewhere_is_min c T G pattern :
  length T = 5%nat → length G = 5%nat →
  format_guess_result T G = Some pattern →
  present_elsewhere c G pattern
  = Nat.min (occurrences c T - exact_matches c T G)
            (occurrences c G - exact_matches c T G).
Proof.
  intros HT HG Hscore.
  destruct (format_guess_result_run_absent T G HT HG)
    as (b & pattern' & Hrun & Hinv & Habs & Hres).
  assert (pattern' = pattern) as -> by congruence.
  pose proof (inv_budget _ _ _ _ Hinv c) as Hbud.
  pose proof (green_board_budget c T G ltac:(congruence)) as Hgreen.
  assert (Hlen : length pattern = length G).
  { rewrite HG, <- (inv_result_len _ _ _ _ Hinv), Hres. by rewrite length_fmap. }
  pose proof (marks_partition c T G pattern ltac:(congruence) Hlen
                (λ i t g, pattern_green_iff T G b pattern i t g Hinv Hres)) as Hpart.
  rewrite Hres, yellow_cells_pattern in Hbud.
  destruct (abs_spent _ _ Habs c) as [Hred|Hspent].
  - rewrite Hres, red_cells_pattern in Hred. lia.
  - lia.
Qed.

(** X3: on 5-character strings, a guess letter that does not occur in the
    target is marked absent wherever it stands. *)
Theorem letter_not_in_target_is_absent T G pattern i c :
  length T = 5%nat → length G = 5%nat →
  format_guess_result T G = Some pattern →
  G !! i = Some c → c ∉ T →
  pattern !! i = Some Red.
Proof.
  intros HT HG Hscore Hc Hout.
  destruct (format_guess_result_run_absent T G HT HG)
    as (b & pattern' & Hrun & Hinv & Habs & Hres).
  assert (pattern' = pattern) as -> by congruence.
  assert (Hi : (i < 5)%nat) by (apply lookup_lt_Some in Hc; lia).
  destruct (lookup_lt_is_Some_2 T i) as [t Ht]; [lia|].
  destruct (inv_decided _ _ _ _ Hinv i Hi) as [m Hm].
  rewrite Hres, list_lookup_fmap in Hm.
  destruct (pattern !! i) as [m'|] eqn:Hpi; simplify_eq/=.
  destruct m; [| |done].
  - exfalso. apply Hout.
    assert (c = t) as -> by (by apply (pattern_green_iff T G b pattern i t c)).
    by eapply list_elem_of_lookup_2.
  - exfalso.
    pose proof (inv_budget _ _ _ _ Hinv c) as Hbud.
    pose proof (green_board_budget c T G ltac:(congruence)) as Hgreen.
    pose proof (count_where_absent c T Hout) as Hnone.
    rewrite Hres, yellow_cells_pattern in Hbud.
    assert (Hpos : (0 < present_elsewhere c G pattern)%nat).
    { apply (count_pairs_positive _ _ _ i c Yellow); [done|done|].
      by apply bool_decide_eq_true_2. }
    unfold occurrences in Hgreen. lia.
Qed.

(** X4: on 5-character strings with a repeated guess letter, the
    present-elsewhere marks go to the leftmost occurrences: no occurrence
    marked absent has the same letter marked present-elsewhere to its right. *)
Theorem present_elsewhere_goes_leftmost T G pattern i j c :
  length T = 5%nat → length G = 5%nat →
  format_guess_result T G = Some pattern →
  (i < j)%nat → G !! i = Some c → G !! j = Some c →
  pattern !! i = Some Red →
  pattern !! j ≠ Some Yellow.
Proof.
  intros HT HG Hscore Hij Hi Hj Hred Hyellow.
  destruct (format_guess_result_run_absent T G HT HG)
    as (b & pattern' & Hrun & Hinv & Habs & Hres).
  assert (pattern' = pattern) as -> by congruence.
  apply (abs_order _ _ Habs i j c Hij Hi Hj).
  - by rewrite Hres, list_lookup_fmap, Hred.
  - by rewrite Hres, list_lookup_fmap, Hyellow.
Qed.

End scoring_absent.

(** ** Handlers: what a message can do to the state *)

Section more_handler_facts.
Import Scoring Store Bot BotMore.
Context {py : PyStr}.
Variable AADII_USER_ID : Z.

(** Every way [process_message] can end, with the state it leaves. *)
Lemma process_message_cases u w :
  let chat := effective_chat_id u in
  (process_message u w).1 = w ∨
  ∃ raw g,
    submits u raw ∧ user_games w !! chat = Some g ∧ active g = true ∧
    valid_guess (normalise raw) ∧ (normalise raw ∉ guessed_words g) ∧
    match format_guess_result (word g) (normalise raw) with
    | None =>
        process_message u w
        = ({| user_games := <[chat := with_guess g (normalise raw)]> (user_games w);
              db := db w |}, Raised)
    | Some pattern =>
        if decide (normalise raw = word g)
        then (process_message u w).1
             = {| user_games := delete chat (user_games w);
                  db := after_call (db_add_score (effective_user_id u) (first_name u) 5
                                      chat (after_call (db w))) |}
        else process_message u w
             = ({| user_games :=
                     <[chat := with_result g (normalise raw) pattern]> (user_games w);
                   db := after_call (db w) |},
                Replied (Progress (history g ++ [(normalise raw, pattern)])
                           (S (attempts g))
                           (first_score (effective_user_id u)
                              (db_get_leaderboard "all" "global" chat (db w)).1.1 0 + 0)))
    end.
Proof.
  intros chat. unfold process_message, normalise. fold chat.
  destruct (message_text u) as [raw|] eqn:Htext; [|by left].
  destruct (decide (raw = [])) as [|Hraw]; [by left|].
  set (text := str_upper (str_strip raw)).
  destruct (is_game_active chat w) eqn:Hact; simpl; [|by left].
  destruct (bool_decide (length text = 5%nat)) eqn:Hlen; simpl; [|by left].
  destruct (str_isalpha text) eqn:Halpha; simpl; [|by left].
  apply bool_decide_eq_true in Hlen.
  apply is_game_active_true in Hact as (g & Hg & Hactive).
  rewrite Hg. destruct (decide (text ∈ guessed_words g)) as [|Hfresh]; [by left|].
  right. exists raw, g. do 5 (split; [done|]). subst text.
  destruct (format_guess_result (word g) (str_upper (str_strip raw))) as [pattern|] eqn:Hscore; simpl;
    [|done].
  pose proof (db_get_leaderboard_db "all" "global" chat (db w)) as Hd1.
  destruct (db_get_leaderboard "all" "global" chat (db w)) as [[data names] d1].
  simpl in Hd1. subst d1. simpl.
  destruct (decide (str_upper (str_strip raw) = word g)) as [Hwin|Hmiss]; [|done].
  pose proof (db_get_leaderboard_db "all" "global" chat
    (db_add_score (effective_user_id u) (first_name u) 5 chat (after_call (db w))))
    as Hd3.
  destruct (db_get_leaderboard "all" "global" chat
    (db_add_score (effective_user_id u) (first_name u) 5 chat (after_call (db w))))
    as [[data' names'] d3]. simpl in Hd3. by subst d3.
Qed.

Lemma format_guess_result_short (target guess : str) :
  (length target < 5)%nat → format_guess_result target guess = None.
Proof.
  intros Hshort. unfold format_guess_result.
  rewrite green_loop_short; [done|]. by left.
Qed.

(** What [process_message] does with a valid guess not tried before. *)
Lemma process_message_accepted u w g raw :
  let chat := effective_chat_id u in
  submits u raw → user_games w !! chat = Some g → active g = true →
  valid_guess (normalise raw) → normalise raw ∉ guessed_words g →
  match format_guess_result (word g) (normalise raw) with
  | None =>
      process_message u w
      = ({| user_games := <[chat := with_guess g (normalise raw)]> (user_games w);
            db := db w |}, Raised)
  | Some pattern =>
      if decide (normalise raw = word g)
      then (process_message u w).1
           = {| user_games := delete chat (user_games w);
                db := after_call (db_add_score (effective_user_id u) (first_name u) 5
                                    chat (after_call (db w))) |}
      else process_message u w
           = ({| user_games :=
                   <[chat := with_result g (normalise raw) pattern]> (user_games w);
                 db := after_call (db w) |},
              Replied (Progress (history g ++ [(normalise raw, pattern)])
                         (S (attempts g))
                         (first_score (effective_user_id u)
                            (db_get_leaderboard "all" "global" chat (db w)).1.1 0 + 0)))
  end.
Proof.
  intros chat [Htext Hraw] Hg Hact [Hlen Halpha] Hfresh.
  unfold process_message, normalise in *. fold chat.
  rewrite Htext, decide_False by done.
  assert (Hactive : is_game_active chat w = true)
    by (apply is_game_active_true; eauto).
  rewrite Hactive, Halpha, bool_decide_eq_true_2 by done. simpl.
  rewrite Hg, decide_False by done.
  destruct (format_guess_result (word g) (str_upper (str_strip raw)))
    as [pattern|] eqn:Hscore; simpl; [|done].
  pose proof (db_get_leaderboard_db "all" "global" chat (db w)) as Hd1.
  destruct (db_get_leaderboard "all" "global" chat (db w)) as [[data names] d1].
  simpl in Hd1. subst d1. simpl.
  destruct (decide (str_upper (str_strip raw) = word g)) as [Hwin|Hmiss]; [|done].
  pose proof (db_get_leaderboard_db "all" "global" chat
    (db_add_score (effective_user_id u) (first_name u) 5 chat (after_call (db w))))
    as Hd3.
  destruct (db_get_leaderboard "all" "global" chat
    (db_add_score (effective_user_id u) (first_name u) 5 chat (after_call (db w))))
    as [[data' names'] d3]. simpl in Hd3. by subst d3.
Qed.

Lemma process_message_duplicate u w g raw :
  submits u raw → user_games w !! effective_chat_id u = Some g → active g = true →
  valid_guess (normalise raw) → normalise raw ∈ guessed_words g →
  process_message u w = (w, Replied (DuplicateGuess (normalise raw))).
Proof.
  intros [Htext Hraw] Hg Hact [Hlen Halpha] Hdup.
  unfold normalise in *. unfold process_message. rewrite Htext.
  rewrite decide_False by done.
  assert (Hactive : is_game_active (effective_chat_id u) w = true)
    by (apply is_game_active_true; eauto).
  rewrite Hactive, Halpha, bool_decide_eq_true_2 by done. simpl. rewrite Hg.
  by rewrite decide_True.
Qed.

(** X5: a valid guess that has not been tried and is not the target is
    scored and recorded: the handler answers with the board, the session
    gains one attempt, the guess and its pattern, and the scores table is
    left alone. *)
Theorem wrong_guess_is_recorded u w g raw :
  submits u raw →
  user_games w !! effective_chat_id u = Some g → active g = true →
  valid_guess (normalise raw) → normalise raw ∉ guessed_words g →
  normalise raw ≠ word g → (5 ≤ length (word g))%nat →
  ∃ pattern,
    format_guess_result (word g) (normalise raw) = Some pattern ∧
    process_message u w
    = ({| user_games :=
            <[effective_chat_id u := with_result g (normalise raw) pattern]>
              (user_games w);
          db := after_call (db w) |},
       Replied (Progress (history g ++ [(normalise raw, pattern)]) (S (attempts g))
                  (first_score (effective_user_id u)
                     (db_get_leaderboard "all" "global" (effective_chat_id u)
                        (db w)).1.1 0 + 0))) ∧
    scores (db (process_message u w).1) = scores (db w).
Proof.
  intros Hsub Hg Hact Hvalid Hfresh Hmiss Hword.
  destruct (format_guess_result_long (word g) (normalise raw)) as [pattern Hscore];
    [done|destruct Hvalid as [Hlen _]; lia|].
  pose proof (process_message_accepted u w g raw Hsub Hg Hact Hvalid Hfresh) as Hcase.
  simpl in Hcase. rewrite Hscore, decide_False in Hcase by done.
  exists pattern. split; [done|]. split; [done|]. by rewrite Hcase.
Qed.

(** X6: a guess that did not win is refused when it comes again in the
    same chat, from anyone and in any spelling with the same normal form, and
    the second message changes nothing. *)
Theorem repeated_guess_is_refused u1 u2 w g raw1 raw2 :
  submits u1 raw1 → submits u2 raw2 →
  effective_chat_id u2 = effective_chat_id u1 →
  normalise raw2 = normalise raw1 →
  user_games w !! effective_chat_id u1 = Some g → active g = true →
  valid_guess (normalise raw1) → normalise raw1 ∉ guessed_words g →
  normalise raw1 ≠ word g →
  let w1 := (process_message u1 w).1 in
  process_message u2 w1 = (w1, Replied (DuplicateGuess (normalise raw1))).
Proof.
  intros Hsub1 Hsub2 Hchat Hsame Hg Hact Hvalid Hfresh Hmiss w1.
  pose proof (process_message_accepted u1 w g raw1 Hsub1 Hg Hact Hvalid Hfresh) as Hcase.
  simpl in Hcase. rewrite <- Hsame.
  destruct (format_guess_result (word g) (normalise raw1)) as [pattern|].
  - rewrite decide_False in Hcase by done.
    apply (process_message_duplicate u2 w1
             (with_result g (normalise raw1) pattern) raw2); try done.
    + subst w1. rewrite Hcase, Hchat. simpl. by rewrite lookup_insert_eq.
    + by rewrite Hsame.
    + rewrite Hsame. simpl. set_solver.
  - apply (process_message_duplicate u2 w1 (with_guess g (normalise raw1)) raw2);
      try done.
    + subst w1. rewrite Hcase, Hchat. simpl. by rewrite lookup_insert_eq.
    + by rewrite Hsame.
    + rewrite Hsame. simpl. set_solver.
Qed.

(** X7: when the stored target has fewer than 5 characters, a valid new
    guess makes the handler raise after the guess has been counted: the
    attempt and the guessed word are stored, the history and the database
    are not touched. *)
Theorem short_target_guess_raises u w g raw :
  submits u raw →
  user_games w !! effective_chat_id u = Some g → active g = true →
  valid_guess (normalise raw) → normalise raw ∉ guessed_words g →
  (length (word g) < 5)%nat →
  process_message u w
  = ({| user_games :=
          <[effective_chat_id u := with_guess g (normalise raw)]> (user_games w);
        db := db w |}, Raised).
Proof.
  intros Hsub Hg Hact Hvalid Hfresh Hshort.
  pose proof (process_message_accepted u w g raw Hsub Hg Hact Hvalid Hfresh) as Hcase.
  simpl in Hcase. by rewrite format_guess_result_short in Hcase.
Qed.

(** *** What an event can do to the session store and to the tables *)

Lemma get_leaderboard_text_db time_frame scope chat d :
  (get_leaderboard_text time_frame scope chat d).2 = after_call d.
Proof.
  unfold get_leaderboard_text.
  pose proof (db_get_leaderboard_db time_frame scope chat d) as Hd.
  by destruct (db_get_leaderboard time_frame scope chat d) as [[data names] d'].
Qed.

Lemma db_add_chat_id_spec chat title d :
  db_add_chat_id chat title d
  = if call_succeeds 0 d && bool_decide (chat ∉ c_chat_id <$> chats d)
    then {| scores := scores d; chats := chats d ++ [ChatRow chat title (now d)];
            now := now d; db_script := tail (db_script d);
            lists_first := lists_first d |}
    else after_call d.
Proof.
  clear AADII_USER_ID.
  destruct d as [sc ch t script].
  unfold db_add_chat_id, db_connect, call_succeeds, after_call; simpl.
  destruct script as [|[] rest]; simpl; try done;
    destruct (decide (chat ∈ c_chat_id <$> ch));
    by rewrite ?bool_decide_eq_true_2, ?bool_decide_eq_false_2 by tauto.
Qed.

Lemma handle_games e w :
  user_games (handle AADII_USER_ID e w) = user_games w ∨
  ∃ chat, event_chat e = Some chat ∧
    (user_games (handle AADII_USER_ID e w) = delete chat (user_games w)
     ∨ (∃ target, user_games (handle AADII_USER_ID e w)
                  = <[chat := new_game target]> (user_games w))
     ∨ (∃ g text,
          user_games w !! chat = Some g ∧ active g = true ∧
          valid_guess text ∧ (text ∉ guessed_words g) ∧ text ≠ word g ∧
          (user_games (handle AADII_USER_ID e w)
           = <[chat := with_guess g text]> (user_games w)
           ∨ ∃ pattern, user_games (handle AADII_USER_ID e w)
                        = <[chat := with_result g text pattern]> (user_games w)))).
Proof.
  destruct e as [u|api pick u|u|u|parts u|delivers u|u|t|script]; simpl;
    try (by left).
  - unfold game_command. destruct (is_game_active _ w); [by left|]. simpl.
    right. eexists. split; [done|]. right. left. by eexists.
  - unfold stop_command. destruct (user_games w !! effective_chat_id u) as [g|];
      [|by left]. destruct (active g); [|by left]. simpl.
    right. eexists. split; [done|]. by left.
  - left. unfold leaderboard_command. by destruct (get_leaderboard_text _ _ _ _).
  - left. unfold leaderboard_callback.
    destruct parts as [|? [|? [|? [|]]]]; try done.
    by destruct (get_leaderboard_text _ _ _ _).
  - left. unfold broadcast_command. case_decide; [done|].
    destruct (reply_to_message u) as [m|]; [|done].
    destruct (db_get_all_chat_ids (db w)) as [ids d'].
    destruct (content_type m); [|done].
    by destruct (foldl _ _ ids).
  - destruct (process_message_cases u w)
      as [->|(raw & g & Hsub & Hg & Hact & Hvalid & Hfresh & Hcase)]; [by left|].
    right. eexists. split; [done|].
    destruct (format_guess_result (word g) (normalise raw)) as [pattern|] eqn:Hscore.
    + destruct (decide (normalise raw = word g)) as [Hwin|Hmiss].
      * left. by rewrite Hcase.
      * right. right. exists g, (normalise raw). do 5 (split; [done|]).
        right. exists pattern. by rewrite Hcase.
    + right. right. exists g, (normalise raw). do 4 (split; [done|]).
      split; [by eapply scoring_never_raises_on_target; [apply Hvalid|]|].
      left. by rewrite Hcase.
Qed.

(** X8: a handler touches at most the session of the chat its update came
    from; the sessions of all other chats are as before. *)
Theorem other_chats_sessions_untouched e w chat :
  event_chat e ≠ Some chat →
  user_games (handle AADII_USER_ID e w) !! chat = user_games w !! chat.
Proof.
  intros Hother.
  destruct (handle_games e w)
    as [->|(c & Hc & [->|[(target & ->)|(g & text & _ & _ & _ & _ & _ & [->|(p & ->)])]])];
    [done|rewrite lookup_delete_ne|rewrite lookup_insert_ne ..]; try done;
    intros ->; by apply Hother.
Qed.

Lemma with_guess_counts g text :
  text ∉ guessed_words g → session_counts g → session_counts (with_guess g text).
Proof.
  intros Hfresh [Hatt Hhist Hknown Honce]. split; simpl.
  - rewrite size_union by set_solver. rewrite size_singleton. lia.
  - lia.
  - intros t p Hin. apply elem_of_union. left. by eapply Hknown.
  - done.
Qed.

Lemma with_result_counts g text pattern :
  text ∉ guessed_words g → session_counts g →
  session_counts (with_result g text pattern).
Proof.
  intros Hfresh [Hatt Hhist Hknown Honce]. split; simpl.
  - rewrite size_union by set_solver. rewrite size_singleton. lia.
  - rewrite length_app. simpl. lia.
  - intros t p [Hin|Hin%list_elem_of_singleton]%elem_of_app; apply elem_of_union.
    + left. by eapply Hknown.
    + right. apply elem_of_singleton. congruence.
  - rewrite fmap_app. apply NoDup_app. split; [done|]. split.
    + intros t [[t' p] [-> Hin]]%list_elem_of_fmap Ht. simpl in Ht.
      apply list_elem_of_singleton in Ht as ->. apply Hfresh. by eapply Hknown.
    + apply NoDup_singleton.
Qed.

Lemma session_counts_handle e w :
  (∀ chat g, user_games w !! chat = Some g → session_counts g) →
  ∀ chat g, user_games (handle AADII_USER_ID e w) !! chat = Some g → session_counts g.
Proof.
  intros Hall chat g.
  destruct (handle_games e w)
    as [->|(c & Hc & [->|[(target & ->)|(g0 & text & Hg0 & _ & _ & Hfresh & _
                                          & [->|(p & ->)])]])].
  - apply Hall.
  - rewrite lookup_delete. case_decide; [done|apply Hall].
  - rewrite lookup_insert. case_decide; [|apply Hall].
    intros [= <-]. split; simpl; [done|lia|intros t p Hin; by apply elem_of_nil in Hin|].
    apply NoDup_nil_2.
  - rewrite lookup_insert. case_decide; [|apply Hall].
    intros [= <-]. apply with_guess_counts; [done|by eapply Hall].
  - rewrite lookup_insert. case_decide; [|apply Hall].
    intros [= <-]. apply with_result_counts; [done|by eapply Hall].
Qed.

(** X9: in every run of the bot, every stored session is active, its target
    is not among its guessed words, every guessed word is 5 alphabetic
    characters, the attempts count the guessed words, and the history holds
    each guess at most once, all of them guessed words. *)
Theorem sessions_stay_consistent w chat g :
  reachable AADII_USER_ID w →
  user_games w !! chat = Some g →
  session_ok g ∧ session_counts g.
Proof.
  intros Hreach Hg. split; [by eapply reachable_sessions_ok|].
  revert chat g Hg. induction Hreach as [d|e w _ IH]; intros chat g; simpl.
  - by rewrite lookup_empty.
  - by apply session_counts_handle.
Qed.

(** X10: no event removes or alters a score record, and the only event
    that adds one is a message whose normal form is the target of the active
    session of its chat; it adds exactly one record, for the sender and the
    chat, with 5 points and the server's time. *)
Theorem scores_grow_only_by_wins e w :
  scores (db (handle AADII_USER_ID e w)) = scores (db w) ∨
  ∃ u raw g,
    e = OnMessage u ∧ submits u raw ∧
    user_games w !! effective_chat_id u = Some g ∧ active g = true ∧
    normalise raw = word g ∧
    scores (db (handle AADII_USER_ID e w))
    = scores (db w) ++ [ScoreRow (effective_user_id u) (first_name u) 5
                          (effective_chat_id u) (now (db w))].
Proof.
  destruct e as [u|api pick u|u|u|parts u|delivers u|u|t|script]; simpl;
    try (by left).
  - left. unfold start_command. destruct (chat_is_private u); simpl; [done|].
    rewrite db_add_chat_id_spec. by destruct (_ && _).
  - left. unfold game_command. by destruct (is_game_active _ w).
  - left. unfold stop_command. destruct (user_games w !! effective_chat_id u) as [g|];
      [|done]. by destruct (active g).
  - left. unfold leaderboard_command.
    pose proof (get_leaderboard_text_db "today" "global" (effective_chat_id u) (db w)).
    destruct (get_leaderboard_text _ _ _ _) as [panel d']. simpl in *. by subst.
  - left. unfold leaderboard_callback.
    destruct parts as [|? [|time_frame [|scope [|]]]]; try done.
    pose proof (get_leaderboard_text_db time_frame scope (effective_chat_id u) (db w)).
    destruct (get_leaderboard_text _ _ _ _) as [panel d']. simpl in *. by subst.
  - left. unfold broadcast_command. case_decide; [done|].
    destruct (reply_to_message u) as [m|]; [|done].
    rewrite db_get_all_chat_ids_spec.
    destruct (content_type m); [|done].
    by destruct (foldl _ _ _).
  - destruct (process_message_cases u w)
      as [->|(raw & g & Hsub & Hg & Hact & Hvalid & Hfresh & Hcase)]; [by left|].
    destruct (format_guess_result (word g) (normalise raw)) as [pattern|].
    + destruct (decide (normalise raw = word g)) as [Hwin|Hmiss].
      * rewrite Hcase. simpl. rewrite db_add_score_spec.
        destruct (call_succeeds 0 (after_call (db w))); simpl; [|by left].
        right. by exists u, raw, g.
      * left. by rewrite Hcase.
    + left. by rewrite Hcase.
Qed.

(** X11: what the database does, or fails to do, has no effect on the
    session store: an event leaves the same sessions whatever the tables
    hold and whatever the coming database calls meet. *)
Theorem sessions_do_not_depend_on_database e games d d' :
  user_games (handle AADII_USER_ID e {| user_games := games; db := d |})
  = user_games (handle AADII_USER_ID e {| user_games := games; db := d' |}).
Proof.
  destruct e as [u|api pick u|u|u|parts u|delivers u|u|t|script]; simpl; try done.
  - unfold game_command, is_game_active; simpl.
    by destruct (games !! effective_chat_id u) as [[? ? []]|].
  - unfold stop_command; simpl.
    by destruct (games !! effective_chat_id u) as [[? ? []]|].
  - unfold leaderboard_command; simpl.
    destruct (get_leaderboard_text _ _ _ d).
    by destruct (get_leaderboard_text _ _ _ d').
  - unfold leaderboard_callback; simpl.
    destruct parts as [|? [|? [|? [|]]]]; try done.
    destruct (get_leaderboard_text _ _ _ d).
    by destruct (get_leaderboard_text _ _ _ d').
  - unfold broadcast_command; simpl. case_decide; [done|].
    destruct (reply_to_message u) as [m|]; [|done].
    destruct (db_get_all_chat_ids d) as [ids ?].
    destruct (db_get_all_chat_ids d') as [ids' ?].
    destruct (content_type m); [|done].
    destruct (foldl _ _ ids).
    by destruct (foldl _ _ ids').
  - unfold process_message, is_game_active; simpl.
    destruct (message_text u) as [raw|]; [|done].
    destruct (decide (raw = [])); [done|].
    destruct (games !! effective_chat_id u) as [g|]; simpl; [|done].
    destruct (active g); simpl; [|done].
    destruct (bool_decide _); simpl; [|done].
    destruct (str_isalpha _); simpl; [|done].
    destruct (decide (_ ∈ guessed_words g)); [done|].
    destruct (format_guess_result _ _); [|done].
    destruct (db_get_leaderboard "all" "global" _ d) as [[? ?] d1].
    destruct (db_get_leaderboard "all" "global" _ d') as [[? ?] d1'].
    destruct (decide (_ = word g)); [|done].
    destruct (db_get_leaderboard "all" "global" _ (db_add_score _ _ _ _ d1))
      as [[? ?] ?].
    by destruct (db_get_leaderboard "all" "global" _ (db_add_score _ _ _ _ d1'))
      as [[? ?] ?].
Qed.

(** X12: the chat registry only grows and keeps its ids unique: after any
    event the registered ids extend those before, without a duplicate. *)
Theorem registry_grows_without_duplicates e w :
  NoDup (registered (db w)) →
  registered (db w) `prefix_of` registered (db (handle AADII_USER_ID e w)) ∧
  NoDup (registered (db (handle AADII_USER_ID e w))).
Proof.
  intros Hnodup.
  assert (Hsame : ∀ w', chats (db w') = chats (db w) →
            registered (db w) `prefix_of` registered (db w') ∧
            NoDup (registered (db w'))).
  { intros w' Hw'. unfold registered. by rewrite Hw'. }
  destruct e as [u|api pick u|u|u|parts u|delivers u|u|t|script]; simpl;
    try (by apply Hsame).
  - unfold start_command. destruct (chat_is_private u); simpl; [by apply Hsame|].
    rewrite db_add_chat_id_spec.
    destruct (call_succeeds 0 (db w)); simpl; [|by apply Hsame].
    case_bool_decide as Hnew; [|by apply Hsame].
    unfold registered; simpl. rewrite fmap_app. split; [by apply prefix_app_r|].
    apply NoDup_app. split; [done|]. split; [|apply NoDup_singleton].
    intros c Hc ->%list_elem_of_singleton. by apply Hnew.
  - apply Hsame. unfold game_command. by destruct (is_game_active _ w).
  - apply Hsame. unfold stop_command.
    destruct (user_games w !! effective_chat_id u) as [g|]; [|done].
    by destruct (active g).
  - apply Hsame. unfold leaderboard_command.
    pose proof (get_leaderboard_text_db "today" "global" (effective_chat_id u) (db w)).
    destruct (get_leaderboard_text _ _ _ _) as [panel d']. simpl in *. by subst.
  - apply Hsame. unfold leaderboard_callback.
    destruct parts as [|? [|time_frame [|scope [|]]]]; try done.
    pose proof (get_leaderboard_text_db time_frame scope (effective_chat_id u) (db w)).
    destruct (get_leaderboard_text _ _ _ _) as [panel d']. simpl in *. by subst.
  - apply Hsame. unfold broadcast_command. case_decide; [done|].
    destruct (reply_to_message u) as [m|]; [|done].
    rewrite db_get_all_chat_ids_spec.
    destruct (content_type m); [|done].
    by destruct (foldl _ _ _).
  - apply Hsame.
    destruct (process_message_cases u w)
      as [->|(raw & g & Hsub & Hg & Hact & Hvalid & Hfresh & Hcase)]; [done|].
    destruct (format_guess_result (word g) (normalise raw)) as [pattern|].
    + destruct (decide (normalise raw = word g)) as [Hwin|Hmiss].
      * rewrite Hcase. simpl. rewrite db_add_score_spec.
        by destruct (call_succeeds 0 (after_call (db w))).
      * by rewrite Hcase.
    + by rewrite Hcase.
Qed.

(** *** Broadcast, registration, start and stop *)

Lemma not_elem_of_filter_ne (here : Z) (ids : list Z) :
  here ∉ filter (λ c, c ≠ here) ids.
Proof. intros Hin. apply list_elem_of_filter in Hin as [Hne _]. by apply Hne. Qed.

(** X13: whoever issues the command and whatever the transport does, a
    broadcast attempts a send only for the owner replying to a message, only
    to registered chats, never to the chat it was issued from, and it changes
    neither the sessions nor the tables. *)
Theorem broadcast_reaches_only_other_registered_chats delivers u w :
  let run := broadcast_command AADII_USER_ID delivers u w in
  (∀ chat, chat ∈ run.2 →
     chat ∈ registered (db w) ∧ chat ≠ effective_chat_id u ∧
     effective_user_id u = AADII_USER_ID ∧ is_Some (reply_to_message u)) ∧
  user_games run.1.1 = user_games w ∧
  scores (db run.1.1) = scores (db w) ∧ chats (db run.1.1) = chats (db w).
Proof.
  unfold broadcast_command.
  destruct (decide (effective_user_id u ≠ AADII_USER_ID)) as [Hother|Howner]; simpl.
  { split; [|done]. intros chat Hin. by apply elem_of_nil in Hin. }
  destruct (reply_to_message u) as [m|]; simpl.
  2:{ split; [|done]. intros chat Hin. by apply elem_of_nil in Hin. }
  rewrite db_get_all_chat_ids_spec.
  destruct (content_type m) as [kind|]; simpl.
  2:{ split; [|done]. intros chat Hin. by apply elem_of_nil in Hin. }
  rewrite broadcast_loop. simpl. split; [|done].
  intros chat Hin. apply list_elem_of_filter in Hin as [Hne Hin].
  split; [|split; [done|split; [|by eexists]]].
  - unfold registered. destruct (call_succeeds 0 (db w)); [done|].
    by apply elem_of_nil in Hin.
  - by destruct (decide (effective_user_id u = AADII_USER_ID)); [|exfalso; apply Howner].
Qed.

(** X14: once [/start] has been handled in a group chat with the database
    answering, the chat is among the ids the registry returns to any later
    lookup that the database answers; a [/start] in a private chat leaves the
    registry as it was. *)
Theorem started_group_is_registered u w w' :
  (chat_is_private u = true → chats (db (start_command u w).1) = chats (db w)) ∧
  (chat_is_private u = false →
   call_succeeds 0 (db w) = true →
   registered (db (start_command u w).1) `prefix_of` registered (db w') →
   call_succeeds 0 (db w') = true →
   effective_chat_id u ∈ (db_get_all_chat_ids (db w')).1).
Proof.
  split.
  { intros Hprivate. unfold start_command. by rewrite Hprivate. }
  intros Hgroup Hok Hlater Hok'.
  assert (Hreg : effective_chat_id u ∈ registered (db (start_command u w).1)).
  { unfold start_command. rewrite Hgroup. simpl. rewrite db_add_chat_id_spec, Hok.
    simpl. case_bool_decide as Hnew; unfold registered; simpl.
    - rewrite fmap_app. apply elem_of_app. right. by left.
    - by destruct (decide (effective_chat_id u ∈ c_chat_id <$> chats (db w))). }
  rewrite db_get_all_chat_ids_spec, Hok'. simpl.
  destruct Hlater as [rest Hrest]. unfold registered in *. rewrite Hrest.
  apply elem_of_app. by left.
Qed.

(** X15: on a chat without a session, starting a game and stopping it at
    once gives the state back as it was, and the stop answers with the word
    that the start had drawn. *)
Theorem start_then_stop_restores_state api pick u u' w :
  user_games w !! effective_chat_id u = None →
  effective_chat_id u' = effective_chat_id u →
  stop_command u' (game_command api pick u w).1
  = (w, Replied (GameStopped (get_random_5_letter_word api pick))).
Proof.
  intros Hnone Hchat. unfold game_command, is_game_active. rewrite Hnone. simpl.
  unfold stop_command. simpl. rewrite Hchat, lookup_insert_eq. simpl.
  rewrite delete_insert_eq, delete_id by done. by destruct w.
Qed.

End more_handler_facts.

(** ** The leaderboard: result, filters and controls *)

Section leaderboard_more.
Import Scoring Store Bot BotMore.

Lemma db_get_leaderboard_ok time_filter scope chat d :
  call_succeeds 0 d = true →
  (db_get_leaderboard time_filter scope chat d).1
  = foldl (λ '(sorted_scores, user_names) '(uid, name, total),
             (sorted_scores ++ [(uid, total)], <[uid := name]> user_names))
          ([], ∅) (leaderboard_query time_filter scope chat d).
Proof.
  unfold db_get_leaderboard, db_connect, call_succeeds.
  destruct (db_script d) as [|[] rest]; simpl; done.
Qed.

Lemma leaderboard_loop (results : list (Z * string * Z)) acc (names : gmap Z string) :
  foldl (λ '(sorted_scores, user_names) '(uid, name, total),
           (sorted_scores ++ [(uid, total)], <[uid := name]> user_names))
        (acc, names) results
  = (acc ++ ((λ g : Z * string * Z, (g.1.1, g.2)) <$> results),
     foldl (λ user_names g, <[g.1.1 := g.1.2]> user_names) names results).
Proof.
  revert acc names. induction results as [|[[u n] t] results IH]; intros acc names;
    simpl.
  - by rewrite app_nil_r.
  - rewrite IH. by rewrite <- app_assoc.
Qed.

Lemma names_loop (results : list (Z * string * Z)) (names : gmap Z string) uid :
  uid ∈ (λ g : Z * string * Z, g.1.1) <$> results ∨ is_Some (names !! uid) →
  is_Some (foldl (λ user_names g, <[g.1.1 := g.1.2]> user_names) names results !! uid).
Proof.
  revert names. induction results as [|[[u n] t] results IH]; intros names Hin; simpl.
  - destruct Hin as [Hin|Hin]; [by apply elem_of_nil in Hin|done].
  - apply IH. simpl in Hin. destruct Hin as [[->|Hin]%elem_of_cons|Hin].
    + right. rewrite lookup_insert_eq. by eexists.
    + by left.
    + right. rewrite lookup_insert. case_decide; [by eexists|done].
Qed.

(** X16: whatever the filters and the state of the database, the sequence
    returned by the leaderboard query has at most 10 entries, in descending
    order of total; every user id in it has a display name in the name
    mapping, and every total is the sum of the matching points recorded for
    that user under one display name. *)
Theorem leaderboard_is_capped_sorted_and_named time_filter scope chat d :
  let result := (db_get_leaderboard time_filter scope chat d).1 in
  (length result.1 ≤ 10)%nat ∧
  StronglySorted (λ x y : Z * Z, y.2 ≤ x.2) result.1 ∧
  ∀ uid total, (uid, total) ∈ result.1 →
    is_Some (result.2 !! uid) ∧
    ∃ name, total = points_under uid name (matching_rows time_filter scope chat d).
Proof.
  intros result. subst result.
  destruct (call_succeeds 0 d) eqn:Hok.
  - rewrite db_get_leaderboard_ok, leaderboard_loop by done. simpl.
    destruct (leaderboard_query_spec time_filter scope chat d)
      as (Hcap & Hsorted & _ & Htotals).
    set (results := leaderboard_query time_filter scope chat d) in *.
    split; [by rewrite length_fmap|]. split.
    + apply (StronglySorted_fmap _ total_desc); [|done]. by intros x y.
    + intros uid total [[[u n] t] [[= -> ->] Hin]]%list_elem_of_fmap. split.
      * apply names_loop. left. apply list_elem_of_fmap. by exists (u, n, t).
      * exists n. by apply Htotals.
  - rewrite db_get_leaderboard_failure by done. simpl.
    split; [lia|]. split; [constructor|].
    intros uid total Hin. by apply elem_of_nil in Hin.
Qed.

Lemma filter_sublist_impl {X : Type} (P Q : X → bool) (l : list X) :
  (∀ x, P x = true → Q x = true) →
  filter (λ x, P x) l `sublist_of` filter (λ x, Q x) l.
Proof.
  intros HPQ. induction l as [|x l IH]; [done|].
  rewrite !filter_cons.
  destruct (P x) eqn:HP; simpl.
  - rewrite (HPQ x HP). simpl. by apply sublist_skip.
  - destruct (Q x); simpl; [by apply sublist_cons|done].
Qed.

(** X17: the filters nest. The rows of today are among those of the week,
    which are among those of any other time filter, and the rows of the
    local scope are among those of any scope, whatever the table holds. *)
Theorem narrower_filters_match_fewer_rows time_filter scope chat d :
  matching_rows "today" scope chat d `sublist_of` matching_rows "week" scope chat d ∧
  (time_filter ≠ "today" →
   matching_rows "week" scope chat d `sublist_of` matching_rows time_filter scope chat d) ∧
  matching_rows time_filter "local" chat d
    `sublist_of` matching_rows time_filter scope chat d.
Proof.
  unfold matching_rows. split; [|split].
  - apply filter_sublist_impl. intros r [Hs Ht]%andb_prop.
    apply andb_true_intro. split; [done|].
    unfold time_condition, seconds_per_day in *. simpl in *. lia.
  - intros Hnot. apply filter_sublist_impl. intros r [Hs Ht]%andb_prop.
    apply andb_true_intro. split; [done|].
    unfold time_condition in *. rewrite decide_False by done.
    by destruct (decide (time_filter = "week")).
  - apply filter_sublist_impl. intros r [Hs Ht]%andb_prop.
    apply andb_true_intro. split; [|done].
    unfold scope_condition in *. simpl in Hs.
    by destruct (decide (scope = "local")).
Qed.

End leaderboard_more.

Section leaderboard_controls.
Import Scoring Store Bot BotMore.

Lemma split_on_free sep s : free_of sep s → split_on sep s = [s].
Proof.
  unfold free_of. induction s as [|a s IH]; simpl; intros Hfree; [done|].
  apply not_elem_of_cons in Hfree as [Hne Hfree].
  rewrite decide_False by congruence. by rewrite IH.
Qed.

Lemma split_on_part sep part rest :
  free_of sep part →
  split_on sep (part +:+ String sep rest) = part :: split_on sep rest.
Proof.
  unfold free_of. induction part as [|a part IH]; simpl; intros Hfree.
  - by rewrite decide_True.
  - apply not_elem_of_cons in Hfree as [Hne Hfree].
    rewrite decide_False by congruence. by rewrite IH.
Qed.

Lemma split_callback_data time scope :
  free_of "_" time → free_of "_" scope →
  split_on "_" ("lb_" +:+ time +:+ "_" +:+ scope) = ["lb"; time; scope].
Proof.
  intros Htime Hscope.
  change ("lb_" +:+ time +:+ "_" +:+ scope)
    with ("lb" +:+ String "_" (time +:+ String "_" scope)).
  rewrite split_on_part.
  - by rewrite split_on_part, split_on_free.
  - unfold free_of; simpl. rewrite !not_elem_of_cons. by repeat split; [..|apply not_elem_of_nil].
Qed.

Lemma literal_free_of_underscore s :
  s ∈ ["today"; "week"; "all"; "global"; "local"] → free_of "_" s.
Proof.
  intros Hs. unfold free_of. repeat (apply elem_of_cons in Hs as [->|Hs]);
    [..|by apply elem_of_nil in Hs]; apply (bool_decide_unpack _); by vm_compute.
Qed.

(** X18: the data of every button of the leaderboard keyboard is read back
    by the callback as the filters the button stands for: the three time
    buttons keep the scope, the switch button keeps the time and takes the
    other scope, and pressing any of them shows the panel for those filters
    and leaves the sessions alone. *)
Theorem keyboard_buttons_round_trip current_time current_scope u w b :
  free_of "_" current_time → free_of "_" current_scope →
  b ∈ concat (get_leaderboard_markup current_time current_scope) →
  ∃ time_frame scope,
    (time_frame, scope)
      ∈ [("today", current_scope); ("week", current_scope); ("all", current_scope);
         (current_time, if decide (current_scope = "global") then "local" else "global")] ∧
    callback_data b = "lb_" +:+ time_frame +:+ "_" +:+ scope ∧
    leaderboard_callback_query (callback_data b) u w
    = ({| user_games := user_games w; db := after_call (db w) |},
       Replied (get_leaderboard_text time_frame scope (effective_chat_id u) (db w)).1).
Proof.
  intros Htime Hscope Hb.
  assert (Hpress : ∀ time_frame scope,
    free_of "_" time_frame → free_of "_" scope →
    leaderboard_callback_query ("lb_" +:+ time_frame +:+ "_" +:+ scope) u w
    = ({| user_games := user_games w; db := after_call (db w) |},
       Replied (get_leaderboard_text time_frame scope (effective_chat_id u) (db w)).1)).
  { intros t s Ht Hs. unfold leaderboard_callback_query.
    rewrite split_callback_data by done. unfold leaderboard_callback.
    pose proof (get_leaderboard_text_db t s (effective_chat_id u) (db w)) as Hd.
    destruct (get_leaderboard_text t s (effective_chat_id u) (db w)) as [panel d'].
    simpl in *. by subst. }
  assert (Hother : free_of "_"
            (if decide (current_scope = "global") then "local" else "global")).
  { apply literal_free_of_underscore. destruct (decide _); rewrite !elem_of_cons; auto 10. }
  unfold get_leaderboard_markup in Hb. simpl in Hb.
  repeat (apply elem_of_cons in Hb as [->|Hb]); [..|by apply elem_of_nil in Hb]; simpl.
  - exists "today", current_scope. split; [rewrite !elem_of_cons; auto 10|]. split; [done|].
    apply (Hpress "today"); [|done]. apply literal_free_of_underscore. rewrite !elem_of_cons; auto 10.
  - exists "week", current_scope. split; [rewrite !elem_of_cons; auto 10|]. split; [done|].
    apply (Hpress "week"); [|done]. apply literal_free_of_underscore. rewrite !elem_of_cons; auto 10.
  - exists "all", current_scope. split; [rewrite !elem_of_cons; auto 10|]. split; [done|].
    apply (Hpress "all"); [|done]. apply literal_free_of_underscore. rewrite !elem_of_cons; auto 10.
  - eexists current_time, _. split; [|split; [done|by apply Hpress]].
    rewrite !elem_of_cons. by right; right; right; left.
Qed.

End leaderboard_controls.

(** ** The further properties on concrete runs *)

Section more_concrete_runs.
Import Scoring ScoringMore Store Bot BotMore Scenario.
#[local] Existing Instance Latin1Text.ops.

Lemma present_elsewhere_is_min_witness :
  let T := String.list_ascii_of_string "SPEED" in
  let G := String.list_ascii_of_string "ERASE" in
  let pattern := [Yellow; Red; Red; Yellow; Yellow] in
  (length T = 5%nat ∧ length G = 5%nat ∧ format_guess_result T G = Some pattern) ∧
  present_elsewhere "E"%char G pattern
  = Nat.min (occurrences "E"%char T - exact_matches "E"%char T G)
            (occurrences "E"%char G - exact_matches "E"%char T G).
Proof.
  intros T G pattern.
  assert (Hscore : format_guess_result T G = Some pattern) by (vm_compute; reflexivity).
  split; [exact (conj eq_refl (conj eq_refl Hscore))|].
  exact (present_elsewhere_is_min "E"%char T G pattern eq_refl eq_refl Hscore).
Defined.

Lemma letter_not_in_target_is_absent_witness :
  let T := String.list_ascii_of_string "APPLE" in
  let G := String.list_ascii_of_string "ALLEY" in
  let pattern := [Green; Yellow; Red; Yellow; Red] in
  (length T = 5%nat ∧ length G = 5%nat ∧ format_guess_result T G = Some pattern ∧
   G !! 4%nat = Some "Y"%char ∧ "Y"%char ∉ T) ∧
  pattern !! 4%nat = Some Red.
Proof.
  intros T G pattern.
  assert (Hscore : format_guess_result T G = Some pattern) by (vm_compute; reflexivity).
  assert (Hout : "Y"%char ∉ T) by (apply (bool_decide_unpack _); vm_compute; exact I).
  split; [exact (conj eq_refl (conj eq_refl (conj Hscore (conj eq_refl Hout))))|].
  exact (letter_not_in_target_is_absent T G pattern 4 "Y"%char
           eq_refl eq_refl Hscore eq_refl Hout).
Defined.

Lemma present_elsewhere_goes_leftmost_witness :
  let T := String.list_ascii_of_string "BRAIN" in
  let G := String.list_ascii_of_string "EERIE" in
  let pattern := [Red; Red; Yellow; Green; Red] in
  (length T = 5%nat ∧ length G = 5%nat ∧ format_guess_result T G = Some pattern ∧
   (0 < 4)%nat ∧ G !! 0%nat = Some "E"%char ∧ G !! 4%nat = Some "E"%char ∧
   pattern !! 0%nat = Some Red) ∧
  pattern !! 4%nat ≠ Some Yellow.
Proof.
  intros T G pattern.
  assert (Hscore : format_guess_result T G = Some pattern) by (vm_compute; reflexivity).
  assert (Hlt : (0 < 4)%nat) by lia.
  split;
    [exact (conj eq_refl (conj eq_refl (conj Hscore
              (conj Hlt (conj eq_refl (conj eq_refl eq_refl))))))|].
  exact (present_elsewhere_goes_leftmost T G pattern 0 4 "E"%char
           eq_refl eq_refl Hscore Hlt eq_refl eq_refl eq_refl).
Defined.

(** The text [école], of 5 characters and 6 bytes in UTF-8, is a guess. *)
Lemma wrong_guess_is_recorded_witness :
  let u := says_text 1 8 ecole in
  let g := new_game (lit "APPLE") in
  let guess : str := [201; 67; 79; 76; 69]%N in
  (submits u ecole ∧ user_games apple_game !! 1 = Some g ∧ active g = true ∧
   valid_guess (normalise ecole) ∧ (normalise ecole ∉ guessed_words g) ∧
   normalise ecole ≠ word g ∧ (5 ≤ length (word g))%nat) ∧
  normalise ecole = guess ∧
  ∃ pattern,
    format_guess_result (lit "APPLE") guess = Some pattern ∧
    user_games (process_message u apple_game).1 !! 1
    = Some (with_result g guess pattern) ∧
    scores (db (process_message u apple_game).1) = [].
Proof.
  intros u g guess.
  assert (Hsub : submits u ecole) by (split; [reflexivity|discriminate]).
  assert (Hg : user_games apple_game !! effective_chat_id u = Some g)
    by (vm_compute; reflexivity).
  assert (Hvalid : valid_guess (normalise ecole)) by (split; vm_compute; reflexivity).
  assert (Hfresh : normalise ecole ∉ guessed_words g) by apply not_elem_of_empty.
  assert (Hmiss : normalise ecole ≠ word g) by (vm_compute; discriminate).
  assert (Hlen : (5 ≤ length (word g))%nat) by (vm_compute; lia).
  split;
    [exact (conj Hsub (conj Hg (conj eq_refl (conj Hvalid
              (conj Hfresh (conj Hmiss Hlen))))))|].
  split; [vm_compute; reflexivity|].
  destruct (wrong_guess_is_recorded u apple_game g ecole
              Hsub Hg eq_refl Hvalid Hfresh Hmiss Hlen)
    as (pattern & Hscore & Hrun & Hscores).
  exists pattern. split; [exact Hscore|]. split; [|exact Hscores].
  rewrite Hrun. simpl. apply lookup_insert_eq.
Defined.

Lemma repeated_guess_is_refused_witness :
  let u1 := says 1 7 "brain" in
  let u2 := says 1 8 " Brain " in
  let g := new_game (lit "APPLE") in
  (submits u1 (lit "brain") ∧ submits u2 (lit " Brain ") ∧
   effective_chat_id u2 = effective_chat_id u1 ∧
   normalise (lit " Brain ") = normalise (lit "brain") ∧
   user_games apple_game !! 1 = Some g ∧ active g = true ∧
   valid_guess (normalise (lit "brain")) ∧ (normalise (lit "brain") ∉ guessed_words g) ∧
   normalise (lit "brain") ≠ word g) ∧
  process_message u2 (process_message u1 apple_game).1
  = ((process_message u1 apple_game).1, Replied (DuplicateGuess (lit "BRAIN"))).
Proof.
  intros u1 u2 g.
  assert (Hsub1 : submits u1 (lit "brain")) by (split; [reflexivity|discriminate]).
  assert (Hsub2 : submits u2 (lit " Brain ")) by (split; [reflexivity|discriminate]).
  assert (Hsame : normalise (lit " Brain ") = normalise (lit "brain")) by (vm_compute; reflexivity).
  assert (Hg : user_games apple_game !! effective_chat_id u1 = Some g)
    by (vm_compute; reflexivity).
  assert (Hvalid : valid_guess (normalise (lit "brain"))) by (split; vm_compute; reflexivity).
  assert (Hfresh : normalise (lit "brain") ∉ guessed_words g) by apply not_elem_of_empty.
  assert (Hmiss : normalise (lit "brain") ≠ word g) by (vm_compute; discriminate).
  split;
    [exact (conj Hsub1 (conj Hsub2 (conj eq_refl (conj Hsame (conj Hg
              (conj eq_refl (conj Hvalid (conj Hfresh Hmiss))))))))|].
  exact (repeated_guess_is_refused u1 u2 apple_game g (lit "brain") (lit " Brain ")
           Hsub1 Hsub2 eq_refl Hsame Hg eq_refl Hvalid Hfresh Hmiss).
Defined.

Lemma short_target_guess_raises_witness :
  let u := says 1 8 "brain" in
  let g := new_game (lit "PIE") in
  (submits u (lit "brain") ∧ user_games short_word_game !! 1 = Some g ∧ active g = true ∧
   valid_guess (normalise (lit "brain")) ∧ (normalise (lit "brain") ∉ guessed_words g) ∧
   (length (word g) < 5)%nat) ∧
  process_message u short_word_game
  = ({| user_games := <[1 := with_guess g (lit "BRAIN")]> (user_games short_word_game);
        db := db short_word_game |}, Raised).
Proof.
  intros u g.
  assert (Hsub : submits u (lit "brain")) by (split; [reflexivity|discriminate]).
  assert (Hg : user_games short_word_game !! effective_chat_id u = Some g)
    by (vm_compute; reflexivity).
  assert (Hvalid : valid_guess (normalise (lit "brain"))) by (split; vm_compute; reflexivity).
  assert (Hfresh : normalise (lit "brain") ∉ guessed_words g) by apply not_elem_of_empty.
  assert (Hshort : (length (word g) < 5)%nat) by (vm_compute; lia).
  split; [exact (conj Hsub (conj Hg (conj eq_refl (conj Hvalid (conj Hfresh Hshort)))))|].
  exact (short_target_guess_raises u short_word_game g (lit "brain")
           Hsub Hg eq_refl Hvalid Hfresh Hshort).
Defined.

Lemma other_chats_sessions_untouched_witness :
  let e := OnStop (says 2 8 "/stop") in
  event_chat e ≠ Some 1 ∧
  user_games (handle owner e apple_game) !! 1 = user_games apple_game !! 1.
Proof.
  intros e.
  assert (Hother : event_chat e ≠ Some 1) by (vm_compute; discriminate).
  split; [exact Hother|].
  exact (other_chats_sessions_untouched owner e apple_game 1 Hother).
Defined.

Lemma sessions_stay_consistent_witness :
  let g := with_result (new_game (lit "APPLE")) (lit "BRAIN")
             [Red; Red; Yellow; Red; Red] in
  (reachable owner apple_game_after_brain ∧
   user_games apple_game_after_brain !! 1 = Some g) ∧
  session_ok g ∧ session_counts g.
Proof.
  intros g.
  assert (Hg : user_games apple_game_after_brain !! 1 = Some g)
    by (vm_compute; reflexivity).
  split; [exact (conj apple_game_after_brain_reachable Hg)|].
  exact (sessions_stay_consistent owner apple_game_after_brain 1 g
           apple_game_after_brain_reachable Hg).
Defined.

Lemma registry_grows_without_duplicates_witness :
  let e := OnStart (says 6 8 "/start") in
  NoDup (registered (db five_chats)) ∧
  registered (db five_chats) `prefix_of` registered (db (handle owner e five_chats)) ∧
  NoDup (registered (db (handle owner e five_chats))).
Proof.
  intros e.
  assert (Hnodup : NoDup (registered (db five_chats))).
  { apply (bool_decide_unpack _). vm_compute. exact I. }
  split; [exact Hnodup|].
  exact (registry_grows_without_duplicates owner e five_chats Hnodup).
Defined.

Lemma started_group_is_registered_witness :
  let u := says 3 8 "/start" in
  let w' := handle owner (OnGame None 2 (says 3 8 "/game")) (start_command u booted).1 in
  (chat_is_private u = false ∧ call_succeeds 0 (db booted) = true ∧
   registered (db (start_command u booted).1) `prefix_of` registered (db w') ∧
   call_succeeds 0 (db w') = true) ∧
  3 ∈ (db_get_all_chat_ids (db w')).1.
Proof.
  intros u w'.
  assert (Hprefix : registered (db (start_command u booted).1)
                      `prefix_of` registered (db w')) by reflexivity.
  split; [exact (conj eq_refl (conj eq_refl (conj Hprefix eq_refl)))|].
  destruct (started_group_is_registered u booted w') as [_ Hgroup].
  exact (Hgroup eq_refl eq_refl Hprefix eq_refl).
Defined.

Lemma start_then_stop_restores_state_witness :
  let u := says 1 7 "/game" in
  let u' := says 1 8 "/stop" in
  (user_games booted !! effective_chat_id u = None ∧
   effective_chat_id u' = effective_chat_id u) ∧
  stop_command u' (game_command (Some (lit "apple")) 0 u booted).1
  = (booted, Replied (GameStopped (lit "APPLE"))).
Proof.
  intros u u'.
  split; [exact (conj eq_refl eq_refl)|].
  exact (start_then_stop_restores_state (Some (lit "apple")) 0 u u' booted
           eq_refl eq_refl).
Defined.

Lemma narrower_filters_match_fewer_rows_witness :
  "all" ≠ "today" ∧
  matching_rows "today" "global" 10 renamed_player_db
    `sublist_of` matching_rows "week" "global" 10 renamed_player_db ∧
  matching_rows "week" "global" 10 renamed_player_db
    `sublist_of` matching_rows "all" "global" 10 renamed_player_db ∧
  matching_rows "all" "local" 10 renamed_player_db
    `sublist_of` matching_rows "all" "global" 10 renamed_player_db.
Proof.
  assert (Hne : "all" ≠ "today") by discriminate.
  split; [exact Hne|].
  destruct (narrower_filters_match_fewer_rows "all" "global" 10 renamed_player_db)
    as (Htoday & Hweek & Hlocal).
  exact (conj Htoday (conj (Hweek Hne) Hlocal)).
Defined.

Lemma keyboard_buttons_round_trip_witness :
  let b := Button "Switch to 🏠 Local Chat" "lb_week_local" in
  let u := says 1 8 "" in
  (free_of "_" "week" ∧ free_of "_" "global" ∧
   b ∈ concat (get_leaderboard_markup "week" "global")) ∧
  ∃ time_frame scope,
    (time_frame, scope)
      ∈ [("today", "global"); ("week", "global"); ("all", "global"); ("week", "local")] ∧
    callback_data b = "lb_" +:+ time_frame +:+ "_" +:+ scope ∧
    leaderboard_callback_query (callback_data b) u booted
    = ({| user_games := user_games booted; db := after_call (db booted) |},
       Replied (get_leaderboard_text time_frame scope (effective_chat_id u) (db booted)).1).
Proof.
  intros b u.
  assert (Htime : free_of "_" "week").
  { apply (bool_decide_unpack _). vm_compute. exact I. }
  assert (Hscope : free_of "_" "global").
  { apply (bool_decide_unpack _). vm_compute. exact I. }
  assert (Hb : b ∈ concat (get_leaderboard_markup "week" "global")).
  { simpl. do 3 apply list_elem_of_further. apply list_elem_of_here. }
  split; [exact (conj Htime (conj Hscope Hb))|].
  exact (keyboard_buttons_round_trip "week" "global" u booted b Htime Hscope Hb).
Defined.

End more_concrete_runs.
